(** * devices/timer.c: tick clock, sleep queue, MLFQS decay, calibrated delays

    A shallow embedding of [src/timer.c].  Kernel state is threaded
    explicitly; thread pointers are addresses, and every field access
    [x->f] goes through the thread store, so that two list entries naming
    the same thread observe the same fields. *)

From Stdlib Require Import ZArith List Bool Lia Sorted.
Import ListNotations.
Local Open Scope Z_scope.

(** ** Machine integers *)

Definition wrap_signed (w x : Z) : Z := (x + 2 ^ (w - 1)) mod 2 ^ w - 2 ^ (w - 1).

(** [int64_t] arithmetic keeps the low 64 bits. *)
Definition int64 (x : Z) : Z := wrap_signed 64 x.

(** [unsigned] is 32 bits wide on the target. *)
Definition uint32 (x : Z) : Z := x mod 2 ^ 32.

Definition INT64_MIN : Z := - 2 ^ 63.
Definition INT64_MAX : Z := 2 ^ 63 - 1.

Definition in_int64 (x : Z) : Prop := INT64_MIN <= x <= INT64_MAX.

(** ** Fixed-point arithmetic *)

Module FixedPoint.

(** Modelled from the spec: the fixed-point header that declares [real]
    and its operations is not part of src/.  The format is the 17.14
    binary fixed-point one, an operation is named after its operand
    kinds (fixed or int) in argument order, products and quotients go
    through a wide intermediate and are truncated toward zero, and the
    conversion to the nearest integer rounds half away from zero.  The
    spec requires the arithmetic not to leave the representable range,
    so values are plain integers here. *)
Definition F : Z := 2 ^ 14.

Definition real : Type := Z.

Definition int_to_fixed (n : Z) : real := n * F.
Definition fixed_to_nearest_int (x : real) : Z :=
  if 0 <=? x then Z.quot (x + Z.quot F 2) F else Z.quot (x - Z.quot F 2) F.
Definition add_two_fixed (x y : real) : real := x + y.
Definition sub_two_fixed (x y : real) : real := x - y.
Definition add_fixed_int (x : real) (n : Z) : real := x + n * F.
Definition sub_fixed_int (x : real) (n : Z) : real := x - n * F.
Definition mul_two_fixed (x y : real) : real := Z.quot (x * y) F.
Definition mul_fixed_int (x : real) (n : Z) : real := x * n.
Definition div_two_fixed (x y : real) : real := Z.quot (x * F) y.
Definition div_fixed_int (x : real) (n : Z) : real := Z.quot x n.

End FixedPoint.
Import FixedPoint.

(** ** Threads and kernel state *)

(** A [struct thread *]: the address of the thread's control block. *)
Definition tid : Type := Z.

Inductive thread_status : Type :=
| THREAD_RUNNING
| THREAD_READY
| THREAD_BLOCKED
| THREAD_DYING.

(** Modelled from the spec: [struct thread] is declared in threads/thread.h,
    which is not part of src/.  These are the fields timer.c reads and
    writes, plus the status that block and unblock change. *)
Record thread : Type := mkThread {
  status : thread_status;
  priority : Z;
  time_to_wake : Z;
  recent_cpu : real;
  nice : Z
}.

Definition set_status (st : thread_status) (t : thread) : thread :=
  mkThread st (priority t) (time_to_wake t) (recent_cpu t) (nice t).
Definition set_priority (p : Z) (t : thread) : thread :=
  mkThread (status t) p (time_to_wake t) (recent_cpu t) (nice t).
Definition set_time_to_wake (w : Z) (t : thread) : thread :=
  mkThread (status t) (priority t) w (recent_cpu t) (nice t).
Definition set_recent_cpu (r : real) (t : thread) : thread :=
  mkThread (status t) (priority t) (time_to_wake t) r (nice t).

(** The globals of timer.c ([ticks], [blocked_threads], [loops_per_tick])
    and the part of the thread subsystem it consults: the thread memory,
    the ready list, the list of all threads, the idle thread, the MLFQS
    flag and the load average. *)
Record kernel : Type := mkKernel {
  ticks : Z;
  blocked_threads : list tid;
  loops_per_tick : Z;
  threads : tid -> thread;
  ready_list : list tid;
  all_list : list tid;
  idle_thread : tid;
  thread_mlfqs : bool;
  load_avg : real
}.

Definition set_ticks (t : Z) (k : kernel) : kernel :=
  mkKernel t (blocked_threads k) (loops_per_tick k) (threads k) (ready_list k)
           (all_list k) (idle_thread k) (thread_mlfqs k) (load_avg k).
Definition set_blocked_threads (q : list tid) (k : kernel) : kernel :=
  mkKernel (ticks k) q (loops_per_tick k) (threads k) (ready_list k)
           (all_list k) (idle_thread k) (thread_mlfqs k) (load_avg k).
Definition set_threads (m : tid -> thread) (k : kernel) : kernel :=
  mkKernel (ticks k) (blocked_threads k) (loops_per_tick k) m (ready_list k)
           (all_list k) (idle_thread k) (thread_mlfqs k) (load_avg k).
Definition set_ready_list (r : list tid) (k : kernel) : kernel :=
  mkKernel (ticks k) (blocked_threads k) (loops_per_tick k) (threads k) r
           (all_list k) (idle_thread k) (thread_mlfqs k) (load_avg k).
Definition set_load_avg (l : real) (k : kernel) : kernel :=
  mkKernel (ticks k) (blocked_threads k) (loops_per_tick k) (threads k)
           (ready_list k) (all_list k) (idle_thread k) (thread_mlfqs k) l.

(** Writing through a thread pointer: [x->field = ...]. *)
Definition store (x : tid) (f : thread -> thread) (m : tid -> thread) : tid -> thread :=
  fun y => if y =? x then f (m y) else m y.

Definition update_thread (x : tid) (f : thread -> thread) (k : kernel) : kernel :=
  set_threads (store x f (threads k)) k.

(** Modelled from the spec: the blocking and unblocking primitives belong to
    threads/thread.c, which is not part of src/.  Blocking marks the unit
    blocked (which unit runs next is the dispatcher's choice); unblocking
    makes the unit runnable, appending it to the ready list. *)
Definition thread_block (cur : tid) (k : kernel) : kernel :=
  update_thread cur (set_status THREAD_BLOCKED) k.

Definition thread_unblock (x : tid) (k : kernel) : kernel :=
  set_ready_list (ready_list k ++ [x]) (update_thread x (set_status THREAD_READY) k).

(** ** The sleep queue *)

(** [comparator_by_ticks]: earlier wake tick first; among equal wake ticks
    the higher priority first.  Both fields are read through the pointers
    at the time of the comparison.  The entries are thread blocks reached
    from list elements, hence never NULL. *)
Definition comparator_by_ticks (m : tid -> thread) (temp_1 temp_2 : tid) : bool :=
  let first := m temp_1 in
  let second := m temp_2 in
  if time_to_wake first <? time_to_wake second then true
  else if (time_to_wake first =? time_to_wake second) && (priority first >? priority second)
       then true
       else false.

(** Modelled from the spec: [list_insert_ordered] belongs to
    lib/kernel/list.c, which is not part of src/.  It inserts the element
    in sorted position: in front of the first element that the ordering
    puts after it, at the end when there is none. *)
Fixpoint list_insert_ordered (less : tid -> tid -> bool) (elem : tid) (l : list tid)
  : list tid :=
  match l with
  | [] => [elem]
  | e :: rest => if less elem e then elem :: l
                 else e :: list_insert_ordered less elem rest
  end.

(** [timer_ticks]: the tick count, read with interrupts off. *)
Definition timer_ticks (k : kernel) : Z := ticks k.

(** [timer_elapsed]. *)
Definition timer_elapsed (k : kernel) (then_ : Z) : Z := int64 (timer_ticks k - then_).

(** [timer_sleep], run by the thread [cur] = [thread_current ()]. *)
Definition timer_sleep (cur : tid) (n : Z) (k : kernel) : kernel :=
  let k1 := update_thread cur (set_time_to_wake (int64 (timer_ticks k + n))) k in
  let k2 := set_blocked_threads
              (list_insert_ordered (comparator_by_ticks (threads k1)) cur
                                   (blocked_threads k1)) k1 in
  thread_block cur k2.

(** The wake-up loop of [timer_interrupt]: [q] is the current content of
    [blocked_threads], inspected from its front. *)
Fixpoint wake_loop (q : list tid) (k : kernel) : kernel :=
  match q with
  | [] => set_blocked_threads [] k
  | e :: rest =>
      if time_to_wake (threads k e) >? timer_ticks k
      then set_blocked_threads q k
      else wake_loop rest (thread_unblock e k)
  end.

Definition drain_ready (k : kernel) : kernel := wake_loop (blocked_threads k) k.

(** [timer_init]: the sleep queue starts empty (programming the timer chip
    and registering the handler touch no state of this model). *)
Definition timer_init (k : kernel) : kernel := set_blocked_threads [] k.

(** ** The timer interrupt and the MLFQS bookkeeping *)

(** A [for] loop over a thread list, running [body] on every element in
    list order against the state left by the previous iteration. *)
Definition for_each (l : list tid) (body : tid -> kernel -> kernel) (k : kernel)
  : kernel :=
  fold_left (fun k' x => body x k') l k.

Section Timer.

(** [TIMER_FREQ] comes from devices/timer.h, which is not part of src/;
    the preprocessor checks at the top of timer.c keep it between 19 and
    1000. *)
Variable TIMER_FREQ : Z.

(** [sizeof (struct thread)], the scale of pointer arithmetic on
    [struct thread *]. *)
Variable sizeof_thread : Z.

(** The second argument of [mul_fixed_int] in the load-average update,
      [list_size (get_ready_list ()) + thread_current () == get_idle_thread () ? 0 : 1]
    as C parses it: [+] binds tighter than [==], which binds tighter than
    [?:], so the size is added to the pointer and the sum is compared
    with the idle thread. *)
Definition ready_threads (cur : tid) (k : kernel) : Z :=
  if Z.of_nat (length (ready_list k)) * sizeof_thread + cur =? idle_thread k
  then 0 else 1.

Definition update_load_avg (cur : tid) (k : kernel) : kernel :=
  let x1 := int_to_fixed 59 in
  let x2 := div_fixed_int x1 60 in
  let x2 := mul_two_fixed x2 (load_avg k) in
  let x3 := int_to_fixed 1 in
  let x4 := div_fixed_int x3 60 in
  let x4 := mul_fixed_int x4 (ready_threads cur k) in
  set_load_avg (add_two_fixed x2 x4) k.

(** Body of the first loop over [get_all_list ()]. *)
Definition decay_recent_cpu (x : tid) (k : kernel) : kernel :=
  if x =? idle_thread k then k
  else
    let x1 := mul_fixed_int (load_avg k) 2 in
    let x2 := add_fixed_int x1 1 in
    let x1 := div_two_fixed x1 x2 in
    let x1 := mul_two_fixed x1 (recent_cpu (threads k x)) in
    update_thread x (fun t => set_recent_cpu (add_fixed_int x1 (nice t)) t) k.

(** The priority the second loop stores, from the thread's [recent_cpu]
    and [nice].  The fixed-point 64 of [x2 = int_to_fixed (64)] is
    overwritten by the next statement, [x2 = sub_two_fixed (64, x1)],
    whose first argument is the literal 64. *)
Definition mlfqs_priority (rc : real) (nc : Z) : Z :=
  let x1 := div_fixed_int rc 4 in
  let x2 := int_to_fixed 64 in
  let x2 := sub_two_fixed 64 x1 in
  let x2 := sub_fixed_int x2 (nc * 2) in
  let p := fixed_to_nearest_int x2 in
  if p >? 63 then 63 else if p <? 0 then 0 else p.

(** Body of the second loop over [get_all_list ()]. *)
Definition recompute_priority (x : tid) (k : kernel) : kernel :=
  if x =? idle_thread k then k
  else update_thread x
         (fun t => set_priority (mlfqs_priority (recent_cpu t) (nice t)) t) k.

(** Every tick: one more tick of processor time for the running thread,
    unless it is the idle thread. *)
Definition charge_running_thread (cur : tid) (k : kernel) : kernel :=
  if cur =? idle_thread k then k
  else update_thread cur
         (fun t => set_recent_cpu (add_fixed_int (recent_cpu t) 1) t) k.

(** The [if (thread_mlfqs)] block.  The [% 4] test sits inside the
    [% TIMER_FREQ] block: the brace closing the first [for] loop is
    followed directly by the [% 4] test, and the per-second block is
    closed only after it. *)
Definition mlfqs_step (cur : tid) (k : kernel) : kernel :=
  let k1 := charge_running_thread cur k in
  if Z.rem (timer_ticks k1) TIMER_FREQ =? 0 then
    let k2 := update_load_avg cur k1 in
    let k3 := for_each (all_list k2) decay_recent_cpu k2 in
    if Z.rem (timer_ticks k3) 4 =? 0
    then for_each (all_list k3) recompute_priority k3
    else k3
  else k1.

(** [ticks++].  The bookkeeping of [thread_tick ()] belongs to the thread
    subsystem and touches nothing timer.c reads. *)
Definition tick (k : kernel) : kernel := set_ticks (int64 (ticks k + 1)) k.

(** [timer_interrupt], taken while [cur] is the running thread.  The
    closing [intr_yield_on_return ()] asks the dispatcher for a yield and
    changes no state of this model. *)
Definition timer_interrupt (cur : tid) (k : kernel) : kernel :=
  let k1 := drain_ready (tick k) in
  if thread_mlfqs k1 then mlfqs_step cur k1 else k1.

(** ** Calibration and real-time delays *)

Inductive intr_level : Type := INTR_OFF | INTR_ON.

(** The [ASSERT]s of the delay engine. *)
Inductive assertion : Type :=
| Assert_intr_on
| Assert_loops_nonzero
| Assert_denom_multiple_of_1000.

(** How a run ends: with a value, in a failed assertion, or with its
    loop budget used up. *)
Inductive outcome (A : Type) : Type :=
| Ret (a : A)
| Failed (why : assertion)
| OutOfFuel.
Arguments Ret {A} a.
Arguments Failed {A} why.
Arguments OutOfFuel {A}.

Section Calibrate.

(** [too_many_loops] measures against the running clock: its answer to
    the [i]-th measurement of [loops] iterations is left open. *)
Variable too_many_loops : nat -> Z -> bool.

(** The doubling [while] loop; [calls] counts the measurements made. *)
Fixpoint doubling_loop (fuel calls : nat) (lpt : Z) : outcome (Z * nat) :=
  match fuel with
  | O => OutOfFuel
  | S fuel' =>
      if too_many_loops calls (uint32 (Z.shiftl lpt 1)) then Ret (lpt, S calls)
      else
        let lpt' := uint32 (Z.shiftl lpt 1) in
        if lpt' =? 0 then Failed Assert_loops_nonzero
        else doubling_loop fuel' (S calls) lpt'
  end.

(** The refinement [for] loop. *)
Fixpoint refine_loop (fuel calls : nat) (high_bit test_bit lpt : Z) : outcome Z :=
  match fuel with
  | O => OutOfFuel
  | S fuel' =>
      if test_bit =? Z.shiftr high_bit 10 then Ret lpt
      else
        let lpt' :=
          if too_many_loops calls (Z.lor lpt test_bit) then lpt
          else Z.lor lpt test_bit in
        refine_loop fuel' (S calls) high_bit (Z.shiftr test_bit 1) lpt'
  end.

(** [timer_calibrate]: the value it leaves in [loops_per_tick]. *)
Definition timer_calibrate_fuel (fuel : nat) (level : intr_level) : outcome Z :=
  match level with
  | INTR_OFF => Failed Assert_intr_on
  | INTR_ON =>
      match doubling_loop fuel 0 (uint32 (Z.shiftl 1 10)) with
      | Ret (lpt, calls) =>
          let high_bit := lpt in
          refine_loop fuel calls high_bit (Z.shiftr high_bit 1) lpt
      | Failed why => Failed why
      | OutOfFuel => OutOfFuel
      end
  end.

Definition timer_calibrate : intr_level -> outcome Z := timer_calibrate_fuel 64.

End Calibrate.

(** What a delay request does: it goes to sleep through the sleep queue,
    leaving the kernel in a new state, or it spins in [busy_wait] for a
    number of iterations, or it stops in an assertion. *)
Inductive delayed : Type :=
| Slept (k' : kernel)
| Spun (loops : Z)
| Halted (why : assertion).

(** [real_time_delay]. *)
Definition real_time_delay (num denom : Z) (k : kernel) : delayed :=
  if Z.rem denom 1000 =? 0 then
    Spun (int64 (Z.quot
                   (int64 (int64 (Z.quot (int64 (loops_per_tick k * num)) 1000)
                           * TIMER_FREQ))
                   (Z.quot denom 1000)))
  else Halted Assert_denom_multiple_of_1000.

(** [real_time_sleep], called by the thread [cur]. *)
Definition real_time_sleep (level : intr_level) (cur : tid) (num denom : Z)
           (k : kernel) : delayed :=
  let ticks := int64 (Z.quot (int64 (num * TIMER_FREQ)) denom) in
  match level with
  | INTR_OFF => Halted Assert_intr_on
  | INTR_ON =>
      if ticks >? 0 then Slept (timer_sleep cur ticks k)
      else real_time_delay num denom k
  end.

Definition timer_msleep level cur (ms : Z) := real_time_sleep level cur ms 1000.
Definition timer_usleep level cur (us : Z) := real_time_sleep level cur us (1000 * 1000).
Definition timer_nsleep level cur (ns : Z) :=
  real_time_sleep level cur ns (1000 * 1000 * 1000).
Definition timer_mdelay (ms : Z) := real_time_delay ms 1000.
Definition timer_udelay (us : Z) := real_time_delay us (1000 * 1000).
Definition timer_ndelay (ns : Z) := real_time_delay ns (1000 * 1000 * 1000).

End Timer.

Arguments Ret {A} a.
Arguments Failed {A} why.
Arguments OutOfFuel {A}.


(** * Specification-level definitions *)

(** ** The ordering of the sleep queue *)

(** [a] may stand in front of [b]: it wakes earlier, or at the same tick
    with a priority that is not lower. *)
Definition queue_le (m : tid -> thread) (a b : tid) : Prop :=
  time_to_wake (m a) < time_to_wake (m b) \/
  (time_to_wake (m a) = time_to_wake (m b) /\ priority (m b) <= priority (m a)).

(** Sorted ascending by wake tick, ties by descending priority: every entry
    may stand in front of its successor. *)
Definition sorted_queue (m : tid -> thread) (q : list tid) : Prop :=
  Sorted (queue_le m) q.

(** The weaker order that looks at wake ticks only. *)
Definition wake_le (m : tid -> thread) (a b : tid) : Prop :=
  time_to_wake (m a) <= time_to_wake (m b).

Definition wake_sorted (m : tid -> thread) (q : list tid) : Prop :=
  Sorted (wake_le m) q.

(** The entries whose wake tick has come at tick [T]. *)
Definition due (m : tid -> thread) (T : Z) (x : tid) : bool :=
  time_to_wake (m x) <=? T.

(** The two operations on the sleep queue, from the state [timer_init]
    leaves.  The thread calling [timer_sleep] is the running one, so it is
    not parked in the queue.  A drain is the wake-up loop of the handler,
    run on the incremented tick count. *)
Inductive reachable : kernel -> Prop :=
| reach_init k : reachable (timer_init k)
| reach_sleep cur n k :
    reachable k -> ~ In cur (blocked_threads k) -> reachable (timer_sleep cur n k)
| reach_drain k :
    reachable k -> reachable (drain_ready (tick k)).

(** The front of the queue that the wake-up loop removes, and what it
    leaves: the loop stops at the first entry that is not due. *)
Fixpoint woken_prefix (m : tid -> thread) (T : Z) (q : list tid) : list tid :=
  match q with
  | [] => []
  | e :: rest => if time_to_wake (m e) >? T then [] else e :: woken_prefix m T rest
  end.

Fixpoint sleeping_suffix (m : tid -> thread) (T : Z) (q : list tid) : list tid :=
  match q with
  | [] => []
  | e :: rest => if time_to_wake (m e) >? T then q else sleeping_suffix m T rest
  end.

(** What the MLFQS block leaves alone: everything but the load average and
    the [recent_cpu] and [priority] of threads. *)
Definition mlfqs_frame (k0 k : kernel) : Prop :=
  ticks k = ticks k0 /\ blocked_threads k = blocked_threads k0 /\
  loops_per_tick k = loops_per_tick k0 /\ ready_list k = ready_list k0 /\
  all_list k = all_list k0 /\ idle_thread k = idle_thread k0 /\
  thread_mlfqs k = thread_mlfqs k0 /\
  forall x, status (threads k x) = status (threads k0 x) /\
            time_to_wake (threads k x) = time_to_wake (threads k0 x) /\
            nice (threads k x) = nice (threads k0 x).

(** recent_cpu' = (2*load_avg) / (2*load_avg + 1) * recent_cpu + nice, in
    the spec's words: every operand a fixed-point number. *)
Definition spec_recent_cpu (la rc : real) (nc : Z) : real :=
  let twice := mul_two_fixed (int_to_fixed 2) la in
  let coefficient := div_two_fixed twice (add_two_fixed twice (int_to_fixed 1)) in
  add_two_fixed (mul_two_fixed coefficient rc) (int_to_fixed nc).

(** ** The MLFQS formulas in the spec's words *)

(** The priority range of threads/thread.h, whose bounds the handler writes
    as the literals 0 and 63. *)
Definition PRI_MIN : Z := 0.
Definition PRI_MAX : Z := 63.

(** priority' = PRI_MAX - (recent_cpu / 4) - (nice * 2), rounded to the
    nearest integer, then clamped into the priority range. *)
Definition spec_priority (rc : real) (nc : Z) : Z :=
  let p := fixed_to_nearest_int
             (sub_two_fixed (sub_two_fixed (int_to_fixed PRI_MAX) (div_fixed_int rc 4))
                            (int_to_fixed (nc * 2))) in
  Z.max PRI_MIN (Z.min PRI_MAX p).

(** The runnable units: the ready ones and the running one, the idle unit
    not counted. *)
Definition spec_ready_count (cur : tid) (k : kernel) : Z :=
  Z.of_nat (length (ready_list k)) + (if cur =? idle_thread k then 0 else 1).

(** load_avg' = (59/60) * load_avg + (1/60) * ready_count. *)
Definition spec_load_avg (la : real) (ready_count : Z) : real :=
  add_two_fixed
    (mul_two_fixed (div_two_fixed (int_to_fixed 59) (int_to_fixed 60)) la)
    (mul_two_fixed (div_two_fixed (int_to_fixed 1) (int_to_fixed 60))
                   (int_to_fixed ready_count)).

(** ** Sample kernels *)

(** Four threads: the idle thread at address 4096, then three more, each
    on a page of its own. *)
Definition sample_idle : tid := 4096.
Definition sample_main : tid := 8192.
Definition sample_a : tid := 12288.
Definition sample_b : tid := 16384.

Definition sample_sizeof_thread : Z := 64.

Definition sample_thread (st : thread_status) (nc : Z) : thread :=
  mkThread st 31 0 0 nc.

(** MLFQS mode at tick [now], load average 0, an empty sleep queue,
    [sample_main] running, [sample_a] with nice 0 and [sample_b] with nice
    -5, all at priority 31 with no processor time used, and the ready list
    [ready]. *)
Definition sample_kernel (now : Z) (ready : list tid) : kernel :=
  mkKernel now [] 1024
           (fun x => if x =? sample_main then sample_thread THREAD_RUNNING 0
                     else if x =? sample_b then sample_thread THREAD_READY (-5)
                     else sample_thread THREAD_READY 0)
           ready
           [sample_idle; sample_main; sample_a; sample_b]
           sample_idle true 0.

(** Both other threads ready behind the running one. *)
Definition busy_kernel (now : Z) : kernel := sample_kernel now [sample_a; sample_b].

(** The spec's end-to-end run: at tick 5, [sample_a] goes to sleep for 10
    ticks and [sample_b] for 3. *)
Definition sleepers_kernel : kernel :=
  timer_sleep sample_b 3 (timer_sleep sample_a 10 (timer_init (sample_kernel 5 []))).

(** At tick 98 both go to sleep for 50 ticks, then two timer interrupts
    follow, the second one at the whole second 100. *)
Definition napping_kernel : kernel :=
  timer_sleep sample_b 50 (timer_sleep sample_a 50 (timer_init (sample_kernel 98 []))).

Definition napping_kernel_at_100 : kernel :=
  timer_interrupt 100 sample_sizeof_thread sample_main
    (timer_interrupt 100 sample_sizeof_thread sample_main napping_kernel).

(** The sleep queue under the whole handler, in either scheduling mode. *)
Inductive handler_reachable (TIMER_FREQ sizeof_thread : Z) : kernel -> Prop :=
| hreach_init k : handler_reachable TIMER_FREQ sizeof_thread (timer_init k)
| hreach_sleep cur n k :
    handler_reachable TIMER_FREQ sizeof_thread k ->
    ~ In cur (blocked_threads k) ->
    handler_reachable TIMER_FREQ sizeof_thread (timer_sleep cur n k)
| hreach_interrupt cur k :
    handler_reachable TIMER_FREQ sizeof_thread k ->
    handler_reachable TIMER_FREQ sizeof_thread
                      (timer_interrupt TIMER_FREQ sizeof_thread cur k).


(** [denom] is an [int32_t]. *)
Definition INT32_MAX : Z := 2 ^ 31 - 1.



(** ** Runs of the handler, the busy-wait loop, a steady clock *)

(** What happens to the sleep queue, one event after the other: a timer
    interrupt, taken while [running] runs, or a call of [timer_sleep] by
    [caller]. *)
Inductive event : Type :=
| Interrupt (running : tid)
| Sleep (caller : tid) (n : Z).

Definition run_event (TIMER_FREQ sizeof_thread : Z) (k : kernel) (e : event) : kernel :=
  match e with
  | Interrupt running => timer_interrupt TIMER_FREQ sizeof_thread running k
  | Sleep caller n => timer_sleep caller n k
  end.

Definition run_events (TIMER_FREQ sizeof_thread : Z) (es : list event) (k : kernel)
  : kernel :=
  fold_left (run_event TIMER_FREQ sizeof_thread) es k.

(** A run in which every caller of [timer_sleep] is a running thread, that
    is, one that is not parked in the queue at the time of the call. *)
Fixpoint callers_run (TIMER_FREQ sizeof_thread : Z) (es : list event) (k : kernel)
  : Prop :=
  match es with
  | [] => True
  | e :: es' =>
      match e with
      | Interrupt _ => True
      | Sleep caller _ => ~ In caller (blocked_threads k)
      end /\
      callers_run TIMER_FREQ sizeof_thread es' (run_event TIMER_FREQ sizeof_thread k e)
  end.

(** The number of timer interrupts in a run. *)
Fixpoint interrupts (es : list event) : Z :=
  match es with
  | [] => 0
  | Interrupt _ :: es' => 1 + interrupts es'
  | Sleep _ _ :: es' => interrupts es'
  end.

(** [busy_wait]: [while (loops-- > 0) barrier ();], counting in [barriers]
    how often the body has run.  The test reads [loops] before the
    decrement. *)
Fixpoint busy_wait_loop (fuel : nat) (loops barriers : Z) : outcome Z :=
  match fuel with
  | O => OutOfFuel
  | S fuel' =>
      if loops >? 0 then busy_wait_loop fuel' (int64 (loops - 1)) (barriers + 1)
      else Ret barriers
  end.

(** [busy_wait (loops)]: the number of [barrier ()] calls it makes. *)
Definition busy_wait (loops : Z) : outcome Z :=
  busy_wait_loop (S (Z.to_nat loops)) loops 0.

(** The nap of [napping_kernel_at_100] goes on: 47 more timer interrupts
    bring the tick count to 147, one short of the wake tick of both
    sleepers. *)
Definition napping_kernel_at_147 : kernel :=
  run_events 100 sample_sizeof_thread (repeat (Interrupt sample_main) 47)
             napping_kernel_at_100.

(** A clock without noise: [limit] iterations fit in a tick, one more does
    not, at every measurement. *)
Definition steady_clock (limit : Z) : nat -> Z -> bool :=
  fun _ loops => limit <? loops.

(** * Proofs *)

(** ** Lemmas on the sleep queue *)

Lemma queue_le_trans m a b c : queue_le m a b -> queue_le m b c -> queue_le m a c.
Proof. unfold queue_le; lia. Qed.

Lemma comparator_true_le m a b : comparator_by_ticks m a b = true -> queue_le m a b.
Proof.
  unfold comparator_by_ticks, queue_le.
  destruct (Z.ltb_spec (time_to_wake (m a)) (time_to_wake (m b))); [lia|].
  destruct (Z.eqb_spec (time_to_wake (m a)) (time_to_wake (m b))); simpl; [|discriminate].
  destruct (Z.gtb_spec (priority (m a)) (priority (m b))); [lia|discriminate].
Qed.

Lemma comparator_false_le m a b : comparator_by_ticks m a b = false -> queue_le m b a.
Proof.
  unfold comparator_by_ticks, queue_le.
  destruct (Z.ltb_spec (time_to_wake (m a)) (time_to_wake (m b))); [discriminate|].
  destruct (Z.eqb_spec (time_to_wake (m a)) (time_to_wake (m b))); simpl; [|lia].
  destruct (Z.gtb_spec (priority (m a)) (priority (m b))); [discriminate|lia].
Qed.

Lemma queue_le_wake_le m a b : queue_le m a b -> wake_le m a b.
Proof. unfold queue_le, wake_le. lia. Qed.

Lemma wake_sorted_strongly m q : wake_sorted m q <-> StronglySorted (wake_le m) q.
Proof.
  split.
  - apply Sorted_StronglySorted. intros a b c. unfold wake_le. lia.
  - apply StronglySorted_Sorted.
Qed.

Lemma strongly_sorted_wake m q :
  StronglySorted (queue_le m) q -> StronglySorted (wake_le m) q.
Proof.
  induction 1 as [|a q _ IH Ha]; constructor; [assumption|].
  rewrite Forall_forall in *. intros x Hx. apply queue_le_wake_le. now apply Ha.
Qed.

Lemma sorted_strongly m q : sorted_queue m q <-> StronglySorted (queue_le m) q.
Proof.
  split.
  - apply Sorted_StronglySorted. intros a b c. apply queue_le_trans.
  - apply StronglySorted_Sorted.
Qed.

(** Sortedness only looks at the two keys of the queued threads. *)
Lemma strongly_sorted_keys m m' q :
  (forall x, In x q -> time_to_wake (m' x) = time_to_wake (m x) /\
                       priority (m' x) = priority (m x)) ->
  StronglySorted (queue_le m) q -> StronglySorted (queue_le m') q.
Proof.
  induction q as [|a q IH]; intros Hk Hs; [constructor|].
  inversion Hs as [|? ? Hq Ha]; subst. constructor.
  - apply IH; [intros x Hx; apply Hk; now right | assumption].
  - rewrite Forall_forall in *. intros x Hx. specialize (Ha x Hx).
    destruct (Hk a (or_introl eq_refl)) as [E1 E2].
    destruct (Hk x (or_intror Hx)) as [E3 E4].
    unfold queue_le in *. lia.
Qed.

Lemma strongly_wake_sorted_keys m m' q :
  (forall x, In x q -> time_to_wake (m' x) = time_to_wake (m x)) ->
  StronglySorted (wake_le m) q -> StronglySorted (wake_le m') q.
Proof.
  induction q as [|a q IH]; intros Hk Hs; [constructor|].
  inversion Hs as [|? ? Hq Ha]; subst. constructor.
  - apply IH; [intros x Hx; apply Hk; now right | assumption].
  - rewrite Forall_forall in *. intros x Hx. specialize (Ha x Hx).
    pose proof (Hk a (or_introl eq_refl)). pose proof (Hk x (or_intror Hx)).
    unfold wake_le in *. lia.
Qed.

Lemma insert_ordered_in less x q y :
  In y (list_insert_ordered less x q) <-> y = x \/ In y q.
Proof.
  induction q as [|e q IH]; simpl.
  - intuition.
  - destruct (less x e); simpl; rewrite ?IH; intuition.
Qed.

Lemma insert_ordered_sorted m x q :
  StronglySorted (queue_le m) q ->
  StronglySorted (queue_le m) (list_insert_ordered (comparator_by_ticks m) x q).
Proof.
  induction q as [|e q IH]; intros Hs; simpl.
  - repeat constructor.
  - inversion Hs as [|? ? Hq He]; subst.
    destruct (comparator_by_ticks m x e) eqn:C.
    + constructor; [assumption|].
      apply comparator_true_le in C. constructor; [assumption|].
      rewrite Forall_forall in *. intros y Hy.
      eapply queue_le_trans; [exact C | now apply He].
    + constructor; [now apply IH|].
      apply comparator_false_le in C.
      rewrite Forall_forall in *. intros y Hy.
      apply insert_ordered_in in Hy. destruct Hy as [->|Hy]; [assumption|now apply He].
Qed.

(** The position the comparator picks respects the wake ticks even when the
    priorities of the queued threads are in no particular order. *)
Lemma insert_ordered_wake_sorted m x q :
  StronglySorted (wake_le m) q ->
  StronglySorted (wake_le m) (list_insert_ordered (comparator_by_ticks m) x q).
Proof.
  induction q as [|e q IH]; intros Hs; simpl.
  - repeat constructor.
  - inversion Hs as [|? ? Hq He]; subst.
    destruct (comparator_by_ticks m x e) eqn:C.
    + constructor; [assumption|].
      apply comparator_true_le, queue_le_wake_le in C. constructor; [assumption|].
      rewrite Forall_forall in *. intros y Hy. specialize (He y Hy).
      unfold wake_le in *. lia.
    + constructor; [now apply IH|].
      apply comparator_false_le, queue_le_wake_le in C.
      rewrite Forall_forall in *. intros y Hy.
      apply insert_ordered_in in Hy. destruct Hy as [->|Hy]; [assumption|now apply He].
Qed.

Lemma store_same x f m : store x f m x = f (m x).
Proof. unfold store. now rewrite Z.eqb_refl. Qed.

Lemma store_other x f m y : y <> x -> store x f m y = m y.
Proof. unfold store. intros H. apply Z.eqb_neq in H. now rewrite H. Qed.

Lemma timer_sleep_blocked cur n k :
  blocked_threads (timer_sleep cur n k) =
  list_insert_ordered
    (comparator_by_ticks
       (store cur (set_time_to_wake (int64 (timer_ticks k + n))) (threads k)))
    cur (blocked_threads k).
Proof. reflexivity. Qed.

Lemma timer_sleep_keys cur n k x :
  time_to_wake (threads (timer_sleep cur n k) x) =
    (if x =? cur then int64 (timer_ticks k + n) else time_to_wake (threads k x)) /\
  priority (threads (timer_sleep cur n k) x) = priority (threads k x).
Proof.
  unfold timer_sleep, thread_block, update_thread; simpl. unfold store.
  destruct (x =? cur); simpl; auto.
Qed.

(** An insertion by a thread outside the queue keeps the queue sorted. *)
Lemma timer_sleep_sorted cur n k :
  ~ In cur (blocked_threads k) ->
  sorted_queue (threads k) (blocked_threads k) ->
  sorted_queue (threads (timer_sleep cur n k)) (blocked_threads (timer_sleep cur n k)).
Proof.
  intros Hn Hs. rewrite sorted_strongly in *.
  rewrite timer_sleep_blocked.
  set (m1 := store cur _ (threads k)).
  apply strongly_sorted_keys with (m := m1).
  - intros x _. unfold timer_sleep, thread_block, update_thread; simpl. fold m1.
    unfold store. destruct (x =? cur); simpl; auto.
  - apply insert_ordered_sorted.
    apply strongly_sorted_keys with (m := threads k); [|assumption].
    intros x Hx. unfold m1. rewrite store_other; [auto|]. intros ->. contradiction.
Qed.

Lemma prefix_suffix_app m T q : q = woken_prefix m T q ++ sleeping_suffix m T q.
Proof.
  induction q as [|e q IH]; simpl; [reflexivity|].
  destruct (time_to_wake (m e) >? T); simpl; [reflexivity|]. now f_equal.
Qed.

Lemma woken_prefix_ext m m' T q :
  (forall x, time_to_wake (m' x) = time_to_wake (m x)) ->
  woken_prefix m' T q = woken_prefix m T q /\
  sleeping_suffix m' T q = sleeping_suffix m T q.
Proof.
  intros E. induction q as [|e q [IH1 IH2]]; simpl; [auto|].
  rewrite E. destruct (time_to_wake (m e) >? T); [auto|]. split; [now f_equal|assumption].
Qed.

Lemma thread_unblock_threads e k x :
  threads (thread_unblock e k) x =
  if x =? e then set_status THREAD_READY (threads k x) else threads k x.
Proof. reflexivity. Qed.

(** What the wake-up loop does to each part of the kernel state. *)
Lemma wake_loop_spec q : forall k,
  let w := woken_prefix (threads k) (ticks k) q in
  let k' := wake_loop q k in
  blocked_threads k' = sleeping_suffix (threads k) (ticks k) q /\
  ready_list k' = ready_list k ++ w /\
  (forall x, threads k' x =
             if existsb (Z.eqb x) w then set_status THREAD_READY (threads k x)
             else threads k x) /\
  ticks k' = ticks k /\ loops_per_tick k' = loops_per_tick k /\
  all_list k' = all_list k /\ idle_thread k' = idle_thread k /\
  thread_mlfqs k' = thread_mlfqs k /\ load_avg k' = load_avg k.
Proof.
  induction q as [|e q IH]; intros k; simpl.
  - rewrite app_nil_r. repeat split; reflexivity.
  - unfold timer_ticks. destruct (time_to_wake (threads k e) >? ticks k) eqn:G; simpl.
    + rewrite app_nil_r. repeat split; reflexivity.
    + specialize (IH (thread_unblock e k)). cbv zeta in IH.
      destruct (woken_prefix_ext (threads k) (threads (thread_unblock e k)) (ticks k) q)
        as [Ew Es].
      { intros x. rewrite thread_unblock_threads. now destruct (x =? e). }
      change (ticks (thread_unblock e k)) with (ticks k) in IH.
      rewrite Ew, Es in IH.
      destruct IH as (Hb & Hr & Ht & H1 & H2 & H3 & H4 & H5 & H6).
      repeat split; try assumption.
      * rewrite Hr. simpl. now rewrite <- app_assoc.
      * intros x. rewrite Ht, thread_unblock_threads.
        destruct (x =? e); simpl; [|reflexivity].
        now destruct (existsb (Z.eqb x) (woken_prefix (threads k) (ticks k) q)).
Qed.

Lemma filter_none {A} (f : A -> bool) l :
  (forall x, In x l -> f x = false) -> filter f l = [].
Proof.
  induction l as [|a l IH]; intros H; simpl; [reflexivity|].
  rewrite (H a (or_introl eq_refl)). apply IH. intros x Hx. apply H. now right.
Qed.

Lemma filter_all {A} (f : A -> bool) l :
  (forall x, In x l -> f x = true) -> filter f l = l.
Proof.
  induction l as [|a l IH]; intros H; simpl; [reflexivity|].
  rewrite (H a (or_introl eq_refl)). f_equal. apply IH. intros x Hx. apply H. now right.
Qed.

(** On a queue in wake-tick order the loop removes exactly the due
    entries. *)
Lemma sorted_prefix_filter m T q :
  StronglySorted (wake_le m) q ->
  woken_prefix m T q = filter (due m T) q /\
  sleeping_suffix m T q = filter (fun x => negb (due m T x)) q.
Proof.
  induction q as [|e q IH]; intros Hs; simpl; [auto|].
  inversion Hs as [|? ? Hq He]; subst. rewrite Forall_forall in He.
  destruct (Z.gtb_spec (time_to_wake (m e)) T) as [G|G].
  - assert (D : due m T e = false) by (unfold due; apply Z.leb_gt; lia).
    rewrite D. simpl.
    assert (N : forall x, In x q -> due m T x = false).
    { intros x Hx. specialize (He x Hx). unfold due, wake_le in *.
      apply Z.leb_gt. lia. }
    split.
    + symmetry. now apply filter_none.
    + f_equal. symmetry. apply filter_all. intros x Hx. now rewrite N.
  - assert (D : due m T e = true) by (unfold due; apply Z.leb_le; lia).
    rewrite D. simpl. destruct (IH Hq) as [E1 E2]. split; [now f_equal|assumption].
Qed.

Lemma strongly_sorted_filter m (f : tid -> bool) q :
  StronglySorted (queue_le m) q -> StronglySorted (queue_le m) (filter f q).
Proof.
  induction q as [|e q IH]; intros Hs; simpl; [constructor|].
  inversion Hs as [|? ? Hq He]; subst.
  destruct (f e); [|now apply IH].
  constructor; [now apply IH|].
  rewrite Forall_forall in *. intros x Hx. apply filter_In in Hx. now apply He.
Qed.

Lemma existsb_eqb_in x l : existsb (Z.eqb x) l = true <-> In x l.
Proof.
  rewrite existsb_exists. split.
  - intros (y & Hy & E). apply Z.eqb_eq in E. now subst.
  - intros H. exists x. split; [assumption|apply Z.eqb_refl].
Qed.

Lemma int64_id x : in_int64 x -> int64 x = x.
Proof.
  unfold in_int64, INT64_MIN, INT64_MAX, int64, wrap_signed. intros H.
  change (2 ^ (64 - 1)) with 9223372036854775808 in *.
  change (2 ^ 63) with 9223372036854775808 in *.
  change (2 ^ 64) with 18446744073709551616.
  rewrite Z.mod_small; lia.
Qed.

Lemma drain_ready_keys k x :
  time_to_wake (threads (drain_ready k) x) = time_to_wake (threads k x) /\
  priority (threads (drain_ready k) x) = priority (threads k x).
Proof.
  unfold drain_ready.
  destruct (wake_loop_spec (blocked_threads k) k) as (_ & _ & Ht & _).
  rewrite Ht. now destruct (existsb _ _).
Qed.

(** A drain keeps the queue sorted. *)
Lemma drain_ready_sorted k :
  sorted_queue (threads k) (blocked_threads k) ->
  sorted_queue (threads (drain_ready k)) (blocked_threads (drain_ready k)).
Proof.
  intros Hs. rewrite sorted_strongly in *.
  apply strongly_sorted_keys with (m := threads k).
  - intros x _. apply drain_ready_keys.
  - unfold drain_ready.
    destruct (wake_loop_spec (blocked_threads k) k) as (Hb & _).
    rewrite Hb.
    destruct (sorted_prefix_filter (threads k) (ticks k) _ (strongly_sorted_wake _ _ Hs))
      as [_ E].
    rewrite E. now apply strongly_sorted_filter.
Qed.

Lemma strongly_wake_sorted_filter m (f : tid -> bool) q :
  StronglySorted (wake_le m) q -> StronglySorted (wake_le m) (filter f q).
Proof.
  induction q as [|e q IH]; intros Hs; simpl; [constructor|].
  inversion Hs as [|? ? Hq He]; subst.
  destruct (f e); [|now apply IH].
  constructor; [now apply IH|].
  rewrite Forall_forall in *. intros x Hx. apply filter_In in Hx. now apply He.
Qed.

(** Insertions and drains keep the wake-tick order on their own. *)
Lemma timer_sleep_wake_sorted cur n k :
  ~ In cur (blocked_threads k) ->
  wake_sorted (threads k) (blocked_threads k) ->
  wake_sorted (threads (timer_sleep cur n k)) (blocked_threads (timer_sleep cur n k)).
Proof.
  intros Hn Hs. rewrite wake_sorted_strongly in *.
  rewrite timer_sleep_blocked.
  set (m1 := store cur _ (threads k)).
  apply strongly_wake_sorted_keys with (m := m1).
  - intros x _. unfold timer_sleep, thread_block, update_thread; simpl. fold m1.
    unfold store. destruct (x =? cur); simpl; auto.
  - apply insert_ordered_wake_sorted.
    apply strongly_wake_sorted_keys with (m := threads k); [|assumption].
    intros x Hx. unfold m1. rewrite store_other; [auto|]. intros ->. contradiction.
Qed.

Lemma drain_ready_wake_sorted k :
  wake_sorted (threads k) (blocked_threads k) ->
  wake_sorted (threads (drain_ready k)) (blocked_threads (drain_ready k)).
Proof.
  intros Hs. rewrite wake_sorted_strongly in *.
  apply strongly_wake_sorted_keys with (m := threads k).
  - intros x _. apply drain_ready_keys.
  - unfold drain_ready.
    destruct (wake_loop_spec (blocked_threads k) k) as (Hb & _).
    rewrite Hb.
    destruct (sorted_prefix_filter (threads k) (ticks k) _ Hs) as [_ E].
    rewrite E. now apply strongly_wake_sorted_filter.
Qed.

(** ** The drain of a fully sorted queue *)

(** On a sorted sleep queue, draining at tick [T] unblocks exactly the
    queued entries whose wake tick is at most [T]: they are appended to
    the ready list in queue order, front to back (so, the queue being
    sorted, in descending priority among equal wake ticks), each one is
    made ready and no other thread is touched; the queue loses exactly
    this front part, every entry that stays has its wake tick after [T],
    and what stays is sorted. *)
Theorem drain_ready_unblocks_due_entries (k : kernel) :
  sorted_queue (threads k) (blocked_threads k) ->
  let T := timer_ticks k in
  let q := blocked_threads k in
  let woken := filter (due (threads k) T) q in
  let k' := drain_ready k in
  ready_list k' = ready_list k ++ woken /\
  blocked_threads k' = filter (fun x => negb (due (threads k) T x)) q /\
  q = woken ++ blocked_threads k' /\
  (forall x, In x woken -> status (threads k' x) = THREAD_READY) /\
  (forall x, ~ In x woken -> threads k' x = threads k x) /\
  (forall x, In x (blocked_threads k') -> T < time_to_wake (threads k' x)) /\
  sorted_queue (threads k') woken /\
  sorted_queue (threads k') (blocked_threads k').
Proof.
  intros Hs. cbv zeta.
  pose proof (drain_ready_sorted k Hs) as Hs'.
  pose proof (drain_ready_keys k) as Hk.
  rewrite sorted_strongly in Hs.
  destruct (sorted_prefix_filter (threads k) (ticks k) (blocked_threads k)
                                 (strongly_sorted_wake _ _ Hs))
    as [Ew Es].
  pose proof (prefix_suffix_app (threads k) (ticks k) (blocked_threads k)) as Ha.
  unfold drain_ready, timer_ticks in *.
  destruct (wake_loop_spec (blocked_threads k) k) as (Hb & Hr & Ht & _).
  rewrite Ew in Hr, Ht, Ha. rewrite Es in Hb, Ha.
  repeat split.
  - exact Hr.
  - exact Hb.
  - rewrite Hb. exact Ha.
  - intros x Hx. rewrite Ht. apply existsb_eqb_in in Hx. now rewrite Hx.
  - intros x Hx. rewrite Ht.
    destruct (existsb (Z.eqb x) (filter (due (threads k) (ticks k)) (blocked_threads k)))
      eqn:E; [|reflexivity].
    apply existsb_eqb_in in E. contradiction.
  - intros x Hx. rewrite Hb in Hx. apply filter_In in Hx. destruct Hx as [_ Hx].
    destruct (Hk x) as [-> _]. unfold due in Hx.
    apply negb_true_iff, Z.leb_gt in Hx. exact Hx.
  - apply sorted_strongly. apply strongly_sorted_keys with (m := threads k).
    + intros x _. apply Hk.
    + now apply strongly_sorted_filter.
  - exact Hs'.
Qed.

(** ** Insertions and drains on their own *)

(** With nothing else touching the priorities, insertions and drains keep
    the queue fully sorted. *)
Lemma reachable_sorted k : reachable k -> sorted_queue (threads k) (blocked_threads k).
Proof.
  induction 1 as [k|cur n k _ IH Hn|k _ IH].
  - constructor.
  - now apply timer_sleep_sorted.
  - apply drain_ready_sorted. exact IH.
Qed.

(** ** What the MLFQS block leaves alone *)

Lemma mlfqs_frame_refl k : mlfqs_frame k k.
Proof. unfold mlfqs_frame. repeat split. Qed.

Lemma mlfqs_frame_trans k0 k1 k2 :
  mlfqs_frame k0 k1 -> mlfqs_frame k1 k2 -> mlfqs_frame k0 k2.
Proof.
  unfold mlfqs_frame.
  intros (A1 & A2 & A3 & A4 & A5 & A6 & A7 & A8) (B1 & B2 & B3 & B4 & B5 & B6 & B7 & B8).
  repeat split; try congruence;
    destruct (A8 x) as (? & ? & ?); destruct (B8 x) as (? & ? & ?); congruence.
Qed.

Lemma mlfqs_frame_update x f k :
  (forall t, status (f t) = status t /\ time_to_wake (f t) = time_to_wake t /\
             nice (f t) = nice t) ->
  mlfqs_frame k (update_thread x f k).
Proof.
  intros Hf. unfold mlfqs_frame, update_thread; simpl. repeat split;
    unfold store; destruct (x0 =? x); try reflexivity; apply Hf.
Qed.

Lemma for_each_frame body l :
  (forall x k, mlfqs_frame k (body x k)) ->
  forall k, mlfqs_frame k (for_each l body k).
Proof.
  intros Hb. unfold for_each. induction l as [|a l IH]; intros k; simpl.
  - apply mlfqs_frame_refl.
  - eapply mlfqs_frame_trans; [apply Hb | apply IH].
Qed.

Lemma decay_recent_cpu_frame x k : mlfqs_frame k (decay_recent_cpu x k).
Proof.
  unfold decay_recent_cpu. destruct (x =? idle_thread k).
  - apply mlfqs_frame_refl.
  - apply mlfqs_frame_update. intros t. repeat split.
Qed.

Lemma recompute_priority_frame x k : mlfqs_frame k (recompute_priority x k).
Proof.
  unfold recompute_priority. destruct (x =? idle_thread k).
  - apply mlfqs_frame_refl.
  - apply mlfqs_frame_update. intros t. repeat split.
Qed.

Lemma update_load_avg_frame sz cur k : mlfqs_frame k (update_load_avg sz cur k).
Proof. unfold mlfqs_frame. repeat split. Qed.

Lemma mlfqs_step_frame F sz cur k : mlfqs_frame k (mlfqs_step F sz cur k).
Proof.
  unfold mlfqs_step.
  set (k1 := charge_running_thread cur k).
  assert (H1 : mlfqs_frame k k1).
  { unfold k1, charge_running_thread. destruct (cur =? idle_thread k).
    - apply mlfqs_frame_refl.
    - apply mlfqs_frame_update. intros t. repeat split. }
  destruct (Z.rem (timer_ticks k1) F =? 0); [|exact H1].
  set (k2 := update_load_avg sz cur k1).
  set (k3 := for_each (all_list k2) decay_recent_cpu k2).
  assert (H3 : mlfqs_frame k k3).
  { eapply mlfqs_frame_trans; [exact H1|].
    eapply mlfqs_frame_trans; [apply update_load_avg_frame|].
    apply for_each_frame. apply decay_recent_cpu_frame. }
  destruct (Z.rem (timer_ticks k3) 4 =? 0); [|exact H3].
  eapply mlfqs_frame_trans; [exact H3|].
  apply for_each_frame. apply recompute_priority_frame.
Qed.

Lemma timer_interrupt_frame F sz cur k :
  mlfqs_frame (drain_ready (tick k)) (timer_interrupt F sz cur k).
Proof.
  unfold timer_interrupt. destruct (thread_mlfqs (drain_ready (tick k))).
  - apply mlfqs_step_frame.
  - apply mlfqs_frame_refl.
Qed.

(** ** Sleeping for no time at all (claim C7) *)

(** A queued thread that is due is taken out by the drain, whatever else
    is queued, provided the queue is in wake-tick order. *)
Lemma drain_ready_due x k :
  wake_sorted (threads k) (blocked_threads k) ->
  In x (blocked_threads k) ->
  time_to_wake (threads k x) <= ticks k ->
  let k' := drain_ready k in
  ~ In x (blocked_threads k') /\ In x (ready_list k') /\
  status (threads k' x) = THREAD_READY.
Proof.
  intros Hs Hx Hd. cbv zeta. rewrite wake_sorted_strongly in Hs.
  destruct (sorted_prefix_filter (threads k) (ticks k) (blocked_threads k) Hs)
    as [Ew Es].
  unfold drain_ready.
  destruct (wake_loop_spec (blocked_threads k) k) as (Hb & Hr & Ht & _).
  rewrite Ew in Hr, Ht. rewrite Es in Hb.
  assert (D : due (threads k) (ticks k) x = true) by (unfold due; now apply Z.leb_le).
  assert (W : In x (filter (due (threads k) (ticks k)) (blocked_threads k)))
    by (apply filter_In; auto).
  repeat split.
  - rewrite Hb. intros H. apply filter_In in H. destruct H as [_ H].
    rewrite D in H. discriminate.
  - rewrite Hr. apply in_or_app. now right.
  - rewrite Ht. apply existsb_eqb_in in W. now rewrite W.
Qed.

(** C7.  A [timer_sleep] of zero or negative duration is served like any
    other: the wake tick it records is not later than the current tick, the
    caller is queued and blocked, and the next timer interrupt, whichever
    thread it interrupts and in either scheduling mode, takes the caller
    out of the queue and makes it ready again.  The queue the caller finds
    need only be in wake-tick order. *)
Theorem timer_sleep_nonpositive_wakes_at_next_tick
        (F sz : Z) (cur running : tid) (n : Z) (k : kernel) :
  wake_sorted (threads k) (blocked_threads k) ->
  ~ In cur (blocked_threads k) ->
  0 <= ticks k < INT64_MAX ->
  INT64_MIN <= n <= 0 ->
  let k1 := timer_sleep cur n k in
  let k2 := timer_interrupt F sz running k1 in
  time_to_wake (threads k1 cur) <= timer_ticks k1 /\
  In cur (blocked_threads k1) /\
  status (threads k1 cur) = THREAD_BLOCKED /\
  ~ In cur (blocked_threads k2) /\
  In cur (ready_list k2) /\
  status (threads k2 cur) = THREAD_READY.
Proof.
  intros Hs Hn Ht Hd. cbv zeta.
  assert (Ew : time_to_wake (threads (timer_sleep cur n k) cur) = ticks k + n).
  { destruct (timer_sleep_keys cur n k cur) as [-> _]. rewrite Z.eqb_refl.
    unfold timer_ticks. apply int64_id. unfold in_int64, INT64_MIN, INT64_MAX in *. lia. }
  assert (Ei : In cur (blocked_threads (timer_sleep cur n k))).
  { rewrite timer_sleep_blocked. apply insert_ordered_in. now left. }
  split; [|split; [|split]].
  - rewrite Ew. change (timer_ticks (timer_sleep cur n k)) with (ticks k). lia.
  - exact Ei.
  - unfold timer_sleep, thread_block, update_thread; simpl. now rewrite store_same.
  - pose proof (timer_sleep_wake_sorted cur n k Hn Hs) as Hs1.
    set (k1 := timer_sleep cur n k) in *.
    assert (Et : ticks (tick k1) = ticks k + 1).
    { unfold tick; simpl. change (ticks k1) with (ticks k). apply int64_id.
      unfold in_int64, INT64_MIN, INT64_MAX in *. lia. }
    destruct (drain_ready_due cur (tick k1)) as (D1 & D2 & D3).
    + exact Hs1.
    + exact Ei.
    + rewrite Et. change (threads (tick k1)) with (threads k1). rewrite Ew. lia.
    + destruct (timer_interrupt_frame F sz running k1)
        as (_ & Fb & _ & Fr & _ & _ & _ & Fx).
      rewrite Fb, Fr. destruct (Fx cur) as (-> & _). auto.
Qed.

(** ** The per-second decay of [recent_cpu] (claim C6) *)

Lemma spec_recent_cpu_code la rc nc :
  add_fixed_int
    (mul_two_fixed
       (div_two_fixed (mul_fixed_int la 2) (add_fixed_int (mul_fixed_int la 2) 1)) rc)
    nc
  = spec_recent_cpu la rc nc.
Proof.
  assert (E : mul_two_fixed (int_to_fixed 2) la = mul_fixed_int la 2).
  { unfold mul_two_fixed, int_to_fixed, mul_fixed_int.
    replace (2 * F * la) with (la * 2 * F) by ring.
    apply Z.quot_mul. unfold F. lia. }
  unfold spec_recent_cpu. cbv zeta. rewrite E. reflexivity.
Qed.

Lemma for_each_inv (P : kernel -> Prop) body l :
  (forall x k, P k -> P (body x k)) ->
  forall k, P k -> P (for_each l body k).
Proof.
  intros Hb. unfold for_each. induction l as [|a l IH]; intros k Hk; simpl; auto.
Qed.

Lemma decay_recent_cpu_threads a k x :
  load_avg (decay_recent_cpu a k) = load_avg k /\
  idle_thread (decay_recent_cpu a k) = idle_thread k /\
  nice (threads (decay_recent_cpu a k) x) = nice (threads k x) /\
  recent_cpu (threads (decay_recent_cpu a k) x) =
    if (x =? a) && negb (x =? idle_thread k)
    then spec_recent_cpu (load_avg k) (recent_cpu (threads k x)) (nice (threads k x))
    else recent_cpu (threads k x).
Proof.
  unfold decay_recent_cpu.
  destruct (Z.eqb_spec x a) as [->|Hx]; simpl.
  - destruct (a =? idle_thread k); simpl; [auto|].
    rewrite store_same. simpl. repeat split. apply spec_recent_cpu_code.
  - destruct (a =? idle_thread k); simpl; [auto|].
    rewrite store_other by assumption. auto.
Qed.

(** The first loop decays every listed thread but the idle one, once, with
    the load average it finds. *)
Lemma decay_loop_spec l :
  NoDup l ->
  forall k,
    let k' := for_each l decay_recent_cpu k in
    load_avg k' = load_avg k /\ idle_thread k' = idle_thread k /\
    forall x,
      nice (threads k' x) = nice (threads k x) /\
      recent_cpu (threads k' x) =
        if existsb (Z.eqb x) l && negb (x =? idle_thread k)
        then spec_recent_cpu (load_avg k) (recent_cpu (threads k x)) (nice (threads k x))
        else recent_cpu (threads k x).
Proof.
  induction 1 as [|a l Ha Hl IH]; intros k; cbv zeta.
  - simpl. auto.
  - change (for_each (a :: l) decay_recent_cpu k)
      with (for_each l decay_recent_cpu (decay_recent_cpu a k)).
    destruct (IH (decay_recent_cpu a k)) as (E1 & E2 & E3).
    destruct (decay_recent_cpu_threads a k a) as (D1 & D2 & _).
    rewrite E1, E2, D1, D2. repeat split.
    + destruct (E3 x) as [-> _]. apply decay_recent_cpu_threads.
    + destruct (E3 x) as [_ ->]. rewrite D1, D2.
      destruct (decay_recent_cpu_threads a k x) as (_ & _ & N & R).
      rewrite N, R. simpl.
      destruct (Z.eqb_spec x a) as [->|Hx]; simpl; [|reflexivity].
      assert (E : existsb (Z.eqb a) l = false).
      { destruct (existsb (Z.eqb a) l) eqn:E; [|reflexivity].
        apply existsb_eqb_in in E. contradiction. }
      rewrite E. simpl. reflexivity.
Qed.

Lemma recompute_priority_keeps a k x :
  load_avg (recompute_priority a k) = load_avg k /\
  recent_cpu (threads (recompute_priority a k) x) = recent_cpu (threads k x).
Proof.
  unfold recompute_priority. destruct (a =? idle_thread k); simpl; [auto|].
  unfold store. destruct (x =? a); auto.
Qed.

Lemma drain_ready_keeps k :
  let k' := drain_ready k in
  ticks k' = ticks k /\ all_list k' = all_list k /\ idle_thread k' = idle_thread k /\
  thread_mlfqs k' = thread_mlfqs k /\ load_avg k' = load_avg k /\
  forall x, recent_cpu (threads k' x) = recent_cpu (threads k x) /\
            nice (threads k' x) = nice (threads k x).
Proof.
  cbv zeta. unfold drain_ready.
  destruct (wake_loop_spec (blocked_threads k) k)
    as (_ & _ & Ht & H1 & _ & H3 & H4 & H5 & H6).
  repeat split; try assumption; rewrite Ht; now destruct (existsb _ _).
Qed.

Lemma charge_running_thread_keeps cur k :
  let k' := charge_running_thread cur k in
  ticks k' = ticks k /\ all_list k' = all_list k /\ idle_thread k' = idle_thread k /\
  ready_list k' = ready_list k /\ load_avg k' = load_avg k /\
  forall x, nice (threads k' x) = nice (threads k x).
Proof.
  cbv zeta. unfold charge_running_thread.
  destruct (cur =? idle_thread k); simpl; repeat split.
  intros x. unfold store. now destruct (x =? cur).
Qed.

Lemma charge_running_thread_recent_cpu cur k x :
  recent_cpu (threads (charge_running_thread cur k) x) =
  if (x =? cur) && negb (cur =? idle_thread k)
  then add_fixed_int (recent_cpu (threads k x)) 1
  else recent_cpu (threads k x).
Proof.
  unfold charge_running_thread.
  destruct (cur =? idle_thread k); simpl.
  - now rewrite andb_false_r.
  - rewrite andb_true_r. unfold store. now destruct (x =? cur).
Qed.

(** C6.  At a whole-second tick in MLFQS mode the handler first replaces
    the load average and then, for every thread of the all-threads list but
    the idle one, replaces [recent_cpu] by
      (2*load_avg') / (2*load_avg' + 1) * recent_cpu + nice
    in fixed-point arithmetic, where [load_avg'] is the load average this
    same interrupt has just stored and [recent_cpu] is the thread's value
    after the per-tick charge. *)
Theorem per_second_recent_cpu_uses_fresh_load_avg
        (F sz : Z) (cur : tid) (k : kernel) (x : tid) :
  thread_mlfqs k = true ->
  Z.rem (int64 (ticks k + 1)) F = 0 ->
  NoDup (all_list k) ->
  In x (all_list k) ->
  x <> idle_thread k ->
  let k' := timer_interrupt F sz cur k in
  load_avg k' = load_avg (update_load_avg sz cur (drain_ready (tick k))) /\
  recent_cpu (threads k' x) =
    spec_recent_cpu (load_avg k')
                    (recent_cpu (threads (charge_running_thread cur k) x))
                    (nice (threads k x)).
Proof.
  intros Hm Hsec Hnd Hin Hidle. cbv zeta.
  destruct (drain_ready_keeps (tick k)) as (D1 & D2 & D3 & D4 & D5 & D6).
  set (k0 := drain_ready (tick k)) in *.
  change (ticks (tick k)) with (int64 (ticks k + 1)) in D1.
  change (all_list (tick k)) with (all_list k) in D2.
  change (idle_thread (tick k)) with (idle_thread k) in D3.
  change (thread_mlfqs (tick k)) with (thread_mlfqs k) in D4.
  change (load_avg (tick k)) with (load_avg k) in D5.
  change (threads (tick k)) with (threads k) in D6.
  unfold timer_interrupt. fold k0. rewrite D4, Hm.
  destruct (charge_running_thread_keeps cur k0) as (C1 & C2 & C3 & C4 & C5 & C6).
  unfold mlfqs_step. set (k1 := charge_running_thread cur k0) in *.
  unfold timer_ticks. rewrite C1, D1, Hsec. simpl (0 =? 0).
  cbv iota.
  set (k2 := update_load_avg sz cur k1).
  assert (L2 : load_avg k2 = load_avg (update_load_avg sz cur k0)).
  { unfold k2, update_load_avg, ready_threads; simpl. now rewrite C3, C4, C5. }
  assert (A2 : all_list k2 = all_list k) by (unfold k2; simpl; congruence).
  assert (I2 : idle_thread k2 = idle_thread k) by (unfold k2; simpl; congruence).
  rewrite A2.
  destruct (decay_loop_spec (all_list k) Hnd k2) as (E1 & E2 & E3).
  set (k3 := for_each (all_list k) decay_recent_cpu k2) in *.
  assert (R3 : recent_cpu (threads k3 x) =
               spec_recent_cpu (load_avg k3)
                 (recent_cpu (threads (charge_running_thread cur k) x))
                 (nice (threads k x))).
  { destruct (E3 x) as [_ ->]. rewrite I2, E1.
    assert (Ex : existsb (Z.eqb x) (all_list k) = true) by now apply existsb_eqb_in.
    apply Z.eqb_neq in Hidle. rewrite Ex, Hidle. simpl.
    change (threads k2) with (threads k1). rewrite C6.
    destruct (D6 x) as [Dr Dn]. rewrite Dn. f_equal.
    unfold k1. rewrite !charge_running_thread_recent_cpu. now rewrite D3, Dr. }
  assert (A3 : all_list k3 = all_list k).
  { destruct (for_each_frame decay_recent_cpu (all_list k) decay_recent_cpu_frame k2)
      as (_ & _ & _ & _ & A & _). fold k3 in A. congruence. }
  destruct (Z.rem (ticks k3) 4 =? 0).
  - rewrite A3.
    assert (P : load_avg (for_each (all_list k) recompute_priority k3) = load_avg k3 /\
                forall y, recent_cpu (threads (for_each (all_list k) recompute_priority k3) y)
                          = recent_cpu (threads k3 y)).
    { apply (for_each_inv
               (fun k' => load_avg k' = load_avg k3 /\
                          forall y, recent_cpu (threads k' y) = recent_cpu (threads k3 y))).
      - intros a k' [P1 P2]. split.
        + destruct (recompute_priority_keeps a k' a) as [-> _]. exact P1.
        + intros y. destruct (recompute_priority_keeps a k' y) as [_ ->]. apply P2.
      - auto. }
    destruct P as [P1 P2]. rewrite P1, P2. split; [congruence|exact R3].
  - split; [congruence|exact R3].
Qed.

(** ** The MLFQS steps on the sample kernel (claims C1, C2, C3) *)

(** With a non-negative [recent_cpu] and a non-negative [nice] the stored
    priority is the lowest one: the minuend is the raw integer 64, less
    than half a unit of the last integer place. *)
Lemma mlfqs_priority_nonneg rc nc : 0 <= rc -> 0 <= nc -> mlfqs_priority rc nc = 0.
Proof.
  intros Hr Hn. unfold mlfqs_priority, fixed_to_nearest_int, sub_fixed_int,
    sub_two_fixed, div_fixed_int. cbv zeta.
  change F with 16384. change (Z.quot 16384 2) with 8192.
  assert (Q : 0 <= Z.quot rc 4) by (apply Z.quot_pos; lia).
  set (v := 64 - Z.quot rc 4 - nc * 2 * 16384).
  assert (V : v <= 64) by (unfold v; lia).
  destruct (Z.leb_spec 0 v).
  - rewrite (Z.quot_small (v + 8192) 16384) by lia. reflexivity.
  - assert (N : Z.quot (v - 8192) 16384 <= 0).
    { replace (v - 8192) with (- (8192 - v)) by ring.
      rewrite Z.quot_opp_l by lia.
      assert (0 <= Z.quot (8192 - v) 16384) by (apply Z.quot_pos; lia). lia. }
    destruct (Z.gtb_spec (Z.quot (v - 8192) 16384) 63); [lia|].
    destruct (Z.ltb_spec (Z.quot (v - 8192) 16384) 0); lia.
Qed.

(** C1.  On the sample kernel the interrupt of tick 100 runs both the
    per-second and the per-4-ticks step; the thread [sample_a], with
    [recent_cpu] 0 and [nice] 0, is left with priority [PRI_MIN], where
    PRI_MAX - recent_cpu / 4 - nice * 2 is [PRI_MAX]. *)
Theorem fresh_thread_gets_lowest_priority :
  let k' := timer_interrupt 100 sample_sizeof_thread sample_main (busy_kernel 99) in
  Z.rem (timer_ticks k') 100 = 0 /\
  Z.rem (timer_ticks k') 4 = 0 /\
  recent_cpu (threads k' sample_a) = 0 /\
  nice (threads k' sample_a) = 0 /\
  priority (threads k' sample_a) = PRI_MIN /\
  mlfqs_priority 0 0 = PRI_MIN /\
  spec_priority 0 0 = PRI_MAX.
Proof. vm_compute. repeat split. Qed.

(** Away from a whole second the handler stores no priority at all. *)
Lemma timer_interrupt_priority_off_second F sz cur k x :
  Z.rem (int64 (ticks k + 1)) F <> 0 ->
  priority (threads (timer_interrupt F sz cur k) x) = priority (threads k x).
Proof.
  intros Hsec. unfold timer_interrupt.
  destruct (drain_ready_keys (tick k) x) as [_ Ep].
  destruct (drain_ready_keeps (tick k)) as (D1 & _ & D3 & _).
  set (k0 := drain_ready (tick k)) in *.
  change (threads (tick k)) with (threads k) in Ep.
  change (ticks (tick k)) with (int64 (ticks k + 1)) in D1.
  destruct (thread_mlfqs k0); [|exact Ep].
  unfold mlfqs_step.
  destruct (charge_running_thread_keeps cur k0) as (C1 & _).
  unfold timer_ticks. rewrite C1, D1.
  apply Z.eqb_neq in Hsec. rewrite Hsec.
  rewrite <- Ep. unfold charge_running_thread.
  destruct (cur =? idle_thread k0); [reflexivity|].
  simpl. unfold store. now destruct (x =? cur).
Qed.

(** C2.  On the sample kernel in MLFQS mode the interrupt of tick 4, a
    multiple of 4 that is not a whole second at 100 ticks per second,
    leaves every priority as it was; running the recomputation loop on the
    resulting state would have changed the priority of [sample_b]. *)
Theorem priorities_not_recomputed_at_tick_4 :
  let k := busy_kernel 3 in
  let k' := timer_interrupt 100 sample_sizeof_thread sample_main k in
  thread_mlfqs k = true /\
  timer_ticks k' = 4 /\
  Z.rem (timer_ticks k') 4 = 0 /\
  map (fun x => priority (threads k' x)) (all_list k') =
    map (fun x => priority (threads k x)) (all_list k) /\
  priority (threads k' sample_b) = 31 /\
  priority (threads (for_each (all_list k') recompute_priority k') sample_b) = 10 /\
  spec_priority (recent_cpu (threads k' sample_b)) (nice (threads k' sample_b)) = 63.
Proof. vm_compute. repeat split. Qed.

(** C3.  On the sample kernel, with the load average at 0, one thread
    running and two ready, the interrupt of tick 100 stores the load
    average of a ready count of 1, 273, where the ready count is 3 and
    (59/60) * 0 + (1/60) * 3 is 819. *)
Theorem load_avg_counts_one_runnable_thread :
  let k := busy_kernel 99 in
  let k' := timer_interrupt 100 sample_sizeof_thread sample_main k in
  Z.rem (timer_ticks k') 100 = 0 /\
  load_avg k = 0 /\
  spec_ready_count sample_main (drain_ready (tick k)) = 3 /\
  ready_threads sample_sizeof_thread sample_main (drain_ready (tick k)) = 1 /\
  load_avg k' = 273 /\
  spec_load_avg (load_avg k) 1 = 273 /\
  spec_load_avg (load_avg k) 3 = 819.
Proof. vm_compute. repeat split. Qed.

(** ** Real-time delays (claims C8, C10) *)

(** C10.  None of the public delay and sleep functions stops in the
    divisibility assertion of [real_time_delay]: the busy-waiting ones
    always reach [busy_wait], and the sleeping ones sleep, reach
    [busy_wait], or stop in the interrupt-level assertion of
    [real_time_sleep]. *)
Theorem public_delays_pass_denominator_assertion
        (F : Z) (level : intr_level) (cur : tid) (n : Z) (k : kernel) :
  (exists loops, timer_mdelay F n k = Spun loops) /\
  (exists loops, timer_udelay F n k = Spun loops) /\
  (exists loops, timer_ndelay F n k = Spun loops) /\
  timer_msleep F level cur n k <> Halted Assert_denom_multiple_of_1000 /\
  timer_usleep F level cur n k <> Halted Assert_denom_multiple_of_1000 /\
  timer_nsleep F level cur n k <> Halted Assert_denom_multiple_of_1000.
Proof.
  unfold timer_mdelay, timer_udelay, timer_ndelay, timer_msleep, timer_usleep,
    timer_nsleep, real_time_sleep, real_time_delay.
  change (Z.rem 1000 1000 =? 0) with true.
  change (Z.rem (1000 * 1000) 1000 =? 0) with true.
  change (Z.rem (1000 * 1000 * 1000) 1000 =? 0) with true.
  cbv iota.
  repeat split; try (eexists; reflexivity);
    destruct level; try discriminate;
    match goal with |- context [if ?c then _ else _] => destruct c end; discriminate.
Qed.

Lemma quot_nonneg_bounds a b :
  0 <= a -> 0 < b -> Z.quot a b = a / b /\ 0 <= Z.quot a b <= a.
Proof.
  intros Ha Hb. rewrite Z.quot_div_nonneg by lia. split; [reflexivity|]. split.
  - apply Z.div_pos; lia.
  - apply Z.div_le_upper_bound; nia.
Qed.

Lemma quot_nonpos_bounds a b : a <= 0 -> 0 < b -> a <= Z.quot a b <= 0.
Proof.
  intros Ha Hb.
  assert (E : Z.quot (- - a) b = - Z.quot (- a) b) by (apply Z.quot_opp_l; lia).
  rewrite Z.opp_involutive in E. rewrite E.
  destruct (quot_nonneg_bounds (- a) b) as [_ B]; lia.
Qed.

(** C8.  With interrupts on, a denominator that is a positive multiple of
    1000 (as every public caller passes) and a numerator whose product
    with [TIMER_FREQ] fits 64 bits, [real_time_sleep] turns NUM/DENOM
    seconds into floor(NUM * TIMER_FREQ / DENOM) ticks.  When that is at
    least one tick it calls [timer_sleep] with it.  Otherwise it
    busy-waits: for a non-negative numerator the iteration count is within
    one iteration plus 1000 * TIMER_FREQ / DENOM of
    loops_per_tick * NUM * TIMER_FREQ / DENOM, from below; for a negative
    one it is not positive, so the loop body never runs. *)
Theorem real_time_sleep_sleeps_or_spins
        (F : Z) (cur : tid) (num denom : Z) (k : kernel) :
  19 <= F <= 1000 ->
  0 < denom <= INT32_MAX ->
  Z.rem denom 1000 = 0 ->
  in_int64 (num * F) ->
  0 <= loops_per_tick k < 2 ^ 32 ->
  let t := num * F / denom in
  (1 <= t ->
     real_time_sleep F INTR_ON cur num denom k = Slept (timer_sleep cur t k)) /\
  (t < 1 -> 0 <= num ->
     exists loops,
       real_time_sleep F INTR_ON cur num denom k = Spun loops /\
       loops * denom <= loops_per_tick k * num * F
                     < (loops + 1) * denom + 1000 * F) /\
  (num < 0 -> in_int64 (loops_per_tick k * num) ->
     exists loops,
       real_time_sleep F INTR_ON cur num denom k = Spun loops /\ loops <= 0).
Proof.
  intros HF Hd Hr Hn Hl. cbv zeta.
  unfold real_time_sleep, real_time_delay.
  rewrite (int64_id (num * F)) by assumption.
  apply Z.eqb_eq in Hr. rewrite Hr.
  assert (Hq : denom = 1000 * Z.quot denom 1000).
  { pose proof (Z.quot_rem' denom 1000) as E. apply Z.eqb_eq in Hr. lia. }
  set (d := Z.quot denom 1000) in *.
  assert (Hdpos : 0 < d) by lia.
  unfold in_int64, INT64_MIN, INT64_MAX, INT32_MAX in *.
  change (2 ^ 63) with 9223372036854775808 in *.
  change (2 ^ 31) with 2147483648 in *.
  change (2 ^ 32) with 4294967296 in *.
  assert (I64 : forall x, -9223372036854775808 <= x <= 9223372036854775808 - 1 ->
                          int64 x = x).
  { intros x Hx. apply int64_id. unfold in_int64, INT64_MIN, INT64_MAX.
    change (2 ^ 63) with 9223372036854775808. lia. }
  split; [|split].
  - intros Ht.
    assert (0 <= num * F).
    { destruct (Z.le_gt_cases 0 (num * F)) as [|Hneg]; [assumption|].
      assert (num * F / denom < 0) by (apply Z.div_lt_upper_bound; lia). lia. }
    destruct (quot_nonneg_bounds (num * F) denom) as [E B]; [lia|lia|].
    rewrite E in *. rewrite I64 by lia.
    assert (G : (num * F / denom >? 0) = true) by (apply Z.gtb_lt; lia).
    rewrite G. reflexivity.
  - intros Ht Hnum.
    assert (Hnf : 0 <= num * F) by nia.
    destruct (quot_nonneg_bounds (num * F) denom) as [E B]; [lia|lia|].
    rewrite E in *.
    assert (T0 : num * F / denom = 0) by lia.
    rewrite T0. change (int64 0 >? 0) with false. cbv iota.
    apply Z.div_small_iff in T0; [|lia].
    destruct T0 as [T0|T0]; [|lia].
    set (a := loops_per_tick k * num).
    assert (Ha : 0 <= a <= 4294967296 * 113025456) by (unfold a; nia).
    rewrite (I64 a) by lia.
    destruct (quot_nonneg_bounds a 1000) as [E1 B1]; [lia|lia|].
    rewrite (I64 (Z.quot a 1000)) by lia.
    assert (M1 : 1000 * (a / 1000) <= a < 1000 * (a / 1000) + 1000).
    { pose proof (Z.div_mod a 1000). pose proof (Z.mod_pos_bound a 1000). lia. }
    rewrite E1 in *. set (q1 := a / 1000) in *.
    assert (Hb : 0 <= q1 * F <= a) by nia.
    rewrite (I64 (q1 * F)) by lia.
    destruct (quot_nonneg_bounds (q1 * F) d) as [E2 B2]; [lia|lia|].
    rewrite (I64 (Z.quot (q1 * F) d)) by lia.
    rewrite E2 in *. set (q2 := q1 * F / d) in *.
    assert (M2 : d * q2 <= q1 * F < d * q2 + d).
    { pose proof (Z.div_mod (q1 * F) d). pose proof (Z.mod_pos_bound (q1 * F) d).
      unfold q2. lia. }
    exists q2. split; [reflexivity|].
    fold a. nia.
  - intros Hnum Ha.
    assert (Hnf : num * F <= 0) by nia.
    destruct (quot_nonpos_bounds (num * F) denom) as [B1 B2]; [lia|lia|].
    rewrite I64 by lia.
    assert (G : (Z.quot (num * F) denom >? 0) = false).
    { destruct (Z.gtb_spec (Z.quot (num * F) denom) 0); [lia|reflexivity]. }
    rewrite G.
    set (a := loops_per_tick k * num) in *.
    assert (Han : a <= 0) by (unfold a; nia).
    rewrite (I64 a) by lia.
    destruct (quot_nonpos_bounds a 1000) as [C1 C2]; [lia|lia|].
    rewrite (I64 (Z.quot a 1000)) by lia.
    set (q1 := Z.quot a 1000) in *.
    assert (Hb : a <= q1 * F <= 0).
    { assert (1000 * q1 >= a).
      { pose proof (Z.quot_rem' a 1000) as E.
        pose proof (Z.rem_nonpos a 1000). fold q1 in E. lia. }
      nia. }
    rewrite (I64 (q1 * F)) by lia.
    destruct (quot_nonpos_bounds (q1 * F) d) as [D1 D2]; [lia|lia|].
    rewrite I64 by lia.
    eexists. split; [reflexivity|assumption].
Qed.

(** ** Calibration (claim C9) *)

Lemma shiftl_pow2_1 e : 0 <= e -> Z.shiftl (2 ^ e) 1 = 2 ^ (e + 1).
Proof.
  intros He. rewrite Z.shiftl_mul_pow2 by lia. rewrite Z.pow_add_r by lia. reflexivity.
Qed.

Lemma shiftr_pow2 e n : 0 <= n <= e -> Z.shiftr (2 ^ e) n = 2 ^ (e - n).
Proof.
  intros H. rewrite Z.shiftr_div_pow2 by lia. symmetry. apply Z.pow_sub_r; lia.
Qed.

(** The doubling loop stops within 22 rounds, at a power of two below
    2^32 or in the overflow assertion. *)
Lemma doubling_loop_spec tml fuel : forall calls e,
  10 <= e <= 31 ->
  (Z.to_nat (32 - e) <= fuel)%nat ->
  match doubling_loop tml fuel calls (2 ^ e) with
  | Ret (lpt, _) => exists e', 10 <= e' <= 31 /\ lpt = 2 ^ e'
  | Failed why => why = Assert_loops_nonzero
  | OutOfFuel => False
  end.
Proof.
  induction fuel as [|fuel IH]; intros calls e He Hf; [lia|].
  cbn [doubling_loop]. rewrite shiftl_pow2_1 by lia.
  destruct (tml calls (uint32 (2 ^ (e + 1)))).
  - exists e. auto.
  - unfold uint32. destruct (Z.eq_dec e 31) as [->|Hne].
    + change (2 ^ (31 + 1) mod 2 ^ 32 =? 0) with true. reflexivity.
    + assert (B : 0 < 2 ^ (e + 1) < 2 ^ 32).
      { split; [apply Z.pow_pos_nonneg; lia|apply Z.pow_lt_mono_r; lia]. }
      rewrite Z.mod_small by lia.
      assert (N : (2 ^ (e + 1) =? 0) = false) by (apply Z.eqb_neq; lia).
      rewrite N. apply IH; lia.
Qed.

(** The refinement loop ends after at most 9 rounds and never clears the
    high bit. *)
Lemma refine_loop_spec tml fuel : forall calls e j lpt,
  10 <= e <= 31 ->
  e - 10 <= j <= e - 1 ->
  Z.log2 lpt = e ->
  (Z.to_nat (j - (e - 10)) < fuel)%nat ->
  exists lpt', refine_loop tml fuel calls (2 ^ e) (2 ^ j) lpt = Ret lpt' /\
               Z.log2 lpt' = e.
Proof.
  induction fuel as [|fuel IH]; intros calls e j lpt He Hj Hl Hf; [lia|].
  cbn [refine_loop]. rewrite (shiftr_pow2 e 10) by lia.
  destruct (Z.eq_dec j (e - 10)) as [->|Hne].
  - rewrite Z.eqb_refl. eauto.
  - assert (N : (2 ^ j =? 2 ^ (e - 10)) = false).
    { apply Z.eqb_neq. intros E. apply Z.pow_inj_r in E; lia. }
    rewrite N. rewrite (shiftr_pow2 j 1) by lia.
    apply IH; try lia.
    destruct (tml calls (Z.lor lpt (2 ^ j))); [assumption|].
    assert (0 < lpt).
    { destruct (Z.le_gt_cases lpt 0) as [L|L]; [|assumption].
      apply Z.log2_nonpos in L. lia. }
    rewrite Z.log2_lor by (try lia; apply Z.pow_nonneg; lia).
    rewrite Z.log2_pow2 by lia. lia.
Qed.

(** C9.  Whatever the measurements answer, [timer_calibrate] comes to an
    end: in a failed assertion (interrupts off, or the doubling search
    running over the 32 bits of the counter), or with a [loops_per_tick]
    that is at least 2^10 and fits the counter, hence not zero. *)
Theorem timer_calibrate_never_zero (too_many_loops : nat -> Z -> bool)
        (level : intr_level) :
  match timer_calibrate too_many_loops level with
  | Ret lpt => 2 ^ 10 <= lpt < 2 ^ 32 /\ lpt <> 0
  | Failed why =>
      (why = Assert_intr_on /\ level = INTR_OFF) \/ why = Assert_loops_nonzero
  | OutOfFuel => False
  end.
Proof.
  unfold timer_calibrate, timer_calibrate_fuel.
  destruct level; [now left|].
  change (uint32 (Z.shiftl 1 10)) with (2 ^ 10).
  pose proof (doubling_loop_spec too_many_loops 64 0 10) as D.
  destruct (doubling_loop too_many_loops 64 0 (2 ^ 10)) as [[lpt calls]|why|].
  - destruct D as (e & He & ->); [lia|lia|].
    rewrite (shiftr_pow2 e 1) by lia.
    destruct (refine_loop_spec too_many_loops 64 calls e (e - 1) (2 ^ e))
      as (lpt' & -> & Hl); try lia.
    + apply Z.log2_pow2. lia.
    + assert (P : 0 < lpt').
      { destruct (Z.le_gt_cases lpt' 0) as [L|L]; [|assumption].
        apply Z.log2_nonpos in L. lia. }
      destruct (Z.log2_spec lpt' P) as [L1 L2]. rewrite Hl in L1, L2.
      assert (2 ^ 10 <= 2 ^ e) by (apply Z.pow_le_mono_r; lia).
      assert (2 ^ (Z.succ e) <= 2 ^ 32) by (apply Z.pow_le_mono_r; lia).
      lia.
  - right. apply D; lia.
  - apply D; lia.
Qed.


(** ** The sleep queue under the whole handler *)

Lemma timer_interrupt_wake_sorted F sz cur k :
  wake_sorted (threads k) (blocked_threads k) ->
  wake_sorted (threads (timer_interrupt F sz cur k))
              (blocked_threads (timer_interrupt F sz cur k)).
Proof.
  intros Hs. apply (drain_ready_wake_sorted (tick k)) in Hs.
  destruct (timer_interrupt_frame F sz cur k) as (_ & Fb & _ & _ & _ & _ & _ & Fx).
  rewrite Fb. rewrite wake_sorted_strongly in *.
  apply strongly_wake_sorted_keys with (m := threads (drain_ready (tick k))).
  - intros x _. apply Fx.
  - exact Hs.
Qed.

Lemma timer_interrupt_mlfqs_off F sz cur k :
  thread_mlfqs k = false -> timer_interrupt F sz cur k = drain_ready (tick k).
Proof.
  intros Hm. unfold timer_interrupt.
  destruct (drain_ready_keeps (tick k)) as (_ & _ & _ & D & _).
  change (thread_mlfqs (tick k)) with (thread_mlfqs k) in D. now rewrite D, Hm.
Qed.

(** Under the whole handler the queue stays in wake-tick order in either
    mode, and fully sorted when the MLFQS block is off. *)
Lemma handler_reachable_sorted F sz k :
  handler_reachable F sz k ->
  wake_sorted (threads k) (blocked_threads k) /\
  (thread_mlfqs k = false -> sorted_queue (threads k) (blocked_threads k)).
Proof.
  induction 1 as [k|cur n k _ [IH1 IH2] Hn|cur k _ [IH1 IH2]].
  - split; [constructor|intros _; constructor].
  - split; [now apply timer_sleep_wake_sorted|].
    intros Hm. apply timer_sleep_sorted; [assumption|]. apply IH2. exact Hm.
  - split; [now apply timer_interrupt_wake_sorted|].
    intros Hm.
    assert (Hk : thread_mlfqs k = false).
    { destruct (timer_interrupt_frame F sz cur k) as (_ & _ & _ & _ & _ & _ & Fm & _).
      destruct (drain_ready_keeps (tick k)) as (_ & _ & _ & D & _).
      change (thread_mlfqs (tick k)) with (thread_mlfqs k) in D. congruence. }
    rewrite (timer_interrupt_mlfqs_off F sz cur k Hk).
    apply drain_ready_sorted. now apply IH2.
Qed.

(** C5, as stated, fails in MLFQS mode.  [sample_a] and [sample_b] go to
    sleep at tick 98 for 50 ticks each, at equal priority, so [sample_a]
    is queued in front.  The timer interrupt of tick 100 drains nothing and
    recomputes the priorities of all threads, the queued ones included,
    without touching the queue: [sample_a] at priority 0 now stands in
    front of [sample_b] at priority 11, both due at tick 148. *)
Lemma sleep_queue_tie_order_broken_by_mlfqs :
  handler_reachable 100 sample_sizeof_thread napping_kernel_at_100 /\
  blocked_threads napping_kernel_at_100 = [sample_a; sample_b] /\
  time_to_wake (threads napping_kernel_at_100 sample_a) = 148 /\
  time_to_wake (threads napping_kernel_at_100 sample_b) = 148 /\
  priority (threads napping_kernel_at_100 sample_a) = 0 /\
  priority (threads napping_kernel_at_100 sample_b) = 11 /\
  ~ sorted_queue (threads napping_kernel_at_100) (blocked_threads napping_kernel_at_100).
Proof.
  split; [|repeat split].
  - unfold napping_kernel_at_100, napping_kernel.
    do 2 apply hreach_interrupt.
    apply hreach_sleep; [apply hreach_sleep; [apply hreach_init|]|].
    + simpl. tauto.
    + vm_compute. intros [H|[]]. discriminate.
  - intros Hs.
    change (blocked_threads napping_kernel_at_100) with [sample_a; sample_b] in Hs.
    inversion Hs as [|? ? _ Hd]; subst. inversion Hd as [|? ? Hle]; subst.
    vm_compute in Hle. destruct Hle as [H|[_ H]]; [discriminate|]. now apply H.
Qed.

(** C5, amended.  From the empty queue of [timer_init], after any sequence
    of [timer_sleep] insertions and timer interrupts the sleep queue is
    sorted ascending by wake tick, and, when the MLFQS block is off, with
    equal wake ticks in descending priority order.  An insertion keeps
    every entry and adds the caller; an interrupt removes a front part of
    the queue only. *)
Theorem sleep_queue_order_invariant (F sz : Z) (k : kernel) :
  handler_reachable F sz k ->
  wake_sorted (threads k) (blocked_threads k) /\
  (thread_mlfqs k = false -> sorted_queue (threads k) (blocked_threads k)) /\
  (forall cur n y,
     In y (blocked_threads (timer_sleep cur n k)) <->
     y = cur \/ In y (blocked_threads k)) /\
  (forall cur, exists woken,
     blocked_threads k = woken ++ blocked_threads (timer_interrupt F sz cur k)).
Proof.
  intros Hr. destruct (handler_reachable_sorted F sz k Hr) as [H1 H2].
  split; [exact H1|]. split; [exact H2|]. split.
  - intros cur n y. rewrite timer_sleep_blocked. apply insert_ordered_in.
  - intros cur.
    exists (woken_prefix (threads k) (ticks (tick k)) (blocked_threads k)).
    destruct (timer_interrupt_frame F sz cur k) as (_ & -> & _).
    unfold drain_ready.
    destruct (wake_loop_spec (blocked_threads (tick k)) (tick k)) as (Hb & _).
    rewrite Hb. apply prefix_suffix_app.
Qed.

(** * The theorems at work on the sample kernels *)

Ltac distinct_threads :=
  repeat (constructor; [simpl; unfold sample_idle, sample_main, sample_a, sample_b; lia|]);
  constructor.

(** The spec's end-to-end run: with [sample_a] due at 15 and [sample_b] at
    8, the drain at tick 8 wakes [sample_b] only, the one at tick 15 wakes
    [sample_a], and the queue is empty afterwards. *)
Example end_to_end_sleepers :
  let at_8 := drain_ready (set_ticks 8 sleepers_kernel) in
  let at_15 := drain_ready (set_ticks 15 at_8) in
  blocked_threads sleepers_kernel = [sample_b; sample_a] /\
  ready_list at_8 = [sample_b] /\ blocked_threads at_8 = [sample_a] /\
  ready_list at_15 = [sample_b; sample_a] /\ blocked_threads at_15 = [].
Proof. vm_compute. repeat split. Qed.

(** [timer_elapsed] right after [timer_ticks] is 0, and N after N ticks. *)
Example elapsed_after_ticks :
  let k := sample_kernel 5 [] in
  timer_elapsed k (timer_ticks k) = 0 /\
  timer_elapsed (tick (tick (tick k))) (timer_ticks k) = 3.
Proof. vm_compute. split; reflexivity. Qed.

(** Converting an integer to fixed point and back to the nearest integer
    restores it. *)
Lemma fixed_round_trip n : fixed_to_nearest_int (int_to_fixed n) = n.
Proof.
  unfold fixed_to_nearest_int, int_to_fixed. change F with 16384.
  change (Z.quot 16384 2) with 8192.
  destruct (Z.leb_spec 0 (n * 16384)).
  - rewrite Z.quot_div_nonneg by lia.
    rewrite Z.div_add_l by lia. change (8192 / 16384) with 0. lia.
  - replace (n * 16384 - 8192) with (- (8192 + (- n) * 16384)) by ring.
    rewrite Z.quot_opp_l by lia. rewrite Z.quot_div_nonneg by lia.
    rewrite Z.div_add by lia. change (8192 / 16384) with 0. lia.
Qed.

Lemma drain_ready_unblocks_due_entries_witness :
  let k := set_ticks 8 sleepers_kernel in
  sorted_queue (threads k) (blocked_threads k) /\
  ready_list (drain_ready k) = [sample_b] /\
  blocked_threads (drain_ready k) = [sample_a].
Proof.
  cbv zeta.
  assert (S : sorted_queue (threads (set_ticks 8 sleepers_kernel))
                           (blocked_threads (set_ticks 8 sleepers_kernel))).
  { change (blocked_threads (set_ticks 8 sleepers_kernel)) with [sample_b; sample_a].
    repeat constructor. }
  split; [exact S|].
  destruct (drain_ready_unblocks_due_entries (set_ticks 8 sleepers_kernel) S)
    as (Hr & Hb & _).
  rewrite Hr, Hb. split; reflexivity.
Defined.

Lemma sleep_queue_order_invariant_witness :
  handler_reachable 100 sample_sizeof_thread napping_kernel_at_100 /\
  wake_sorted (threads napping_kernel_at_100) (blocked_threads napping_kernel_at_100).
Proof.
  assert (R : handler_reachable 100 sample_sizeof_thread napping_kernel_at_100).
  { unfold napping_kernel_at_100, napping_kernel.
    do 2 apply hreach_interrupt.
    apply hreach_sleep; [apply hreach_sleep; [apply hreach_init|]|].
    - simpl. tauto.
    - vm_compute. intros [H|[]]. discriminate. }
  split; [exact R|].
  destruct (sleep_queue_order_invariant 100 sample_sizeof_thread napping_kernel_at_100 R)
    as [W _].
  exact W.
Defined.

Lemma per_second_recent_cpu_uses_fresh_load_avg_witness :
  let k := busy_kernel 99 in
  let k' := timer_interrupt 100 sample_sizeof_thread sample_main k in
  thread_mlfqs k = true /\
  Z.rem (int64 (ticks k + 1)) 100 = 0 /\
  NoDup (all_list k) /\
  In sample_main (all_list k) /\
  sample_main <> idle_thread k /\
  load_avg k' = 273 /\
  recent_cpu (threads k' sample_main) = spec_recent_cpu 273 (int_to_fixed 1) 0.
Proof.
  cbv zeta.
  assert (H1 : thread_mlfqs (busy_kernel 99) = true) by reflexivity.
  assert (H2 : Z.rem (int64 (ticks (busy_kernel 99) + 1)) 100 = 0) by reflexivity.
  assert (H3 : NoDup (all_list (busy_kernel 99))) by (simpl; distinct_threads).
  assert (H4 : In sample_main (all_list (busy_kernel 99))) by (simpl; tauto).
  assert (H5 : sample_main <> idle_thread (busy_kernel 99)) by (simpl; discriminate).
  repeat (split; [assumption|]).
  destruct (per_second_recent_cpu_uses_fresh_load_avg
              100 sample_sizeof_thread sample_main (busy_kernel 99) sample_main
              H1 H2 H3 H4 H5) as [L R].
  split; [rewrite L; reflexivity|].
  rewrite R, L. reflexivity.
Defined.

Lemma timer_sleep_nonpositive_wakes_at_next_tick_witness :
  let k := timer_init (sample_kernel 5 []) in
  let k1 := timer_sleep sample_a 0 k in
  let k2 := timer_interrupt 100 sample_sizeof_thread sample_main k1 in
  wake_sorted (threads k) (blocked_threads k) /\
  ~ In sample_a (blocked_threads k) /\
  0 <= ticks k < INT64_MAX /\
  INT64_MIN <= 0 <= 0 /\
  time_to_wake (threads k1 sample_a) <= timer_ticks k1 /\
  In sample_a (blocked_threads k1) /\
  status (threads k1 sample_a) = THREAD_BLOCKED /\
  ~ In sample_a (blocked_threads k2) /\
  In sample_a (ready_list k2) /\
  status (threads k2 sample_a) = THREAD_READY.
Proof.
  cbv zeta.
  assert (H1 : wake_sorted (threads (timer_init (sample_kernel 5 [])))
                           (blocked_threads (timer_init (sample_kernel 5 []))))
    by constructor.
  assert (H2 : ~ In sample_a (blocked_threads (timer_init (sample_kernel 5 []))))
    by (simpl; tauto).
  assert (H3 : 0 <= ticks (timer_init (sample_kernel 5 [])) < INT64_MAX)
    by (simpl; unfold INT64_MAX; lia).
  assert (H4 : INT64_MIN <= 0 <= 0) by (unfold INT64_MIN; lia).
  repeat (split; [assumption|]).
  exact (timer_sleep_nonpositive_wakes_at_next_tick
           100 sample_sizeof_thread sample_a sample_main 0
           (timer_init (sample_kernel 5 [])) H1 H2 H3 H4).
Defined.

Lemma real_time_sleep_sleeps_or_spins_witness :
  let k := sample_kernel 5 [] in
  19 <= 100 <= 1000 /\
  0 < 1000 <= INT32_MAX /\
  Z.rem 1000 1000 = 0 /\
  in_int64 (25 * 100) /\
  0 <= loops_per_tick k < 2 ^ 32 /\
  real_time_sleep 100 INTR_ON sample_a 25 1000 k = Slept (timer_sleep sample_a 2 k).
Proof.
  cbv zeta.
  assert (H1 : 19 <= 100 <= 1000) by lia.
  assert (H2 : 0 < 1000 <= INT32_MAX) by (unfold INT32_MAX; lia).
  assert (H3 : Z.rem 1000 1000 = 0) by reflexivity.
  assert (H4 : in_int64 (25 * 100)) by (unfold in_int64, INT64_MIN, INT64_MAX; lia).
  assert (H5 : 0 <= loops_per_tick (sample_kernel 5 []) < 2 ^ 32) by (simpl; lia).
  repeat (split; [assumption|]).
  destruct (real_time_sleep_sleeps_or_spins
              100 sample_a 25 1000 (sample_kernel 5 []) H1 H2 H3 H4 H5) as (S & _).
  apply S. vm_compute. discriminate.
Defined.

(** * Further properties of the code *)

(** ** The comparator *)

Lemma comparator_true_iff m a b :
  comparator_by_ticks m a b = true <->
  time_to_wake (m a) < time_to_wake (m b) \/
  (time_to_wake (m a) = time_to_wake (m b) /\ priority (m b) < priority (m a)).
Proof.
  unfold comparator_by_ticks.
  destruct (Z.ltb_spec (time_to_wake (m a)) (time_to_wake (m b))); [intuition lia|].
  destruct (Z.eqb_spec (time_to_wake (m a)) (time_to_wake (m b))); simpl.
  - destruct (Z.gtb_spec (priority (m a)) (priority (m b))); intuition (lia || discriminate).
  - intuition (lia || discriminate).
Qed.

Lemma comparator_false_iff m a b :
  comparator_by_ticks m a b = false <->
  time_to_wake (m b) < time_to_wake (m a) \/
  (time_to_wake (m a) = time_to_wake (m b) /\ priority (m a) <= priority (m b)).
Proof.
  rewrite <- Bool.not_true_iff_false, comparator_true_iff. lia.
Qed.

(** X1.  [comparator_by_ticks] is a strict weak order on threads: no thread
    comes before itself, two threads never come before each other, coming
    before is transitive, and so is coming before in neither direction,
    which happens exactly for equal wake ticks and equal priorities. *)
Theorem comparator_by_ticks_strict_weak_order (m : tid -> thread) :
  (forall a, comparator_by_ticks m a a = false) /\
  (forall a b, comparator_by_ticks m a b = true -> comparator_by_ticks m b a = false) /\
  (forall a b c, comparator_by_ticks m a b = true -> comparator_by_ticks m b c = true ->
                 comparator_by_ticks m a c = true) /\
  (forall a b c, comparator_by_ticks m a b = false -> comparator_by_ticks m b c = false ->
                 comparator_by_ticks m a c = false) /\
  (forall a b, comparator_by_ticks m a b = false /\ comparator_by_ticks m b a = false <->
               time_to_wake (m a) = time_to_wake (m b) /\ priority (m a) = priority (m b)).
Proof.
  repeat split; intros;
    repeat match goal with
           | H : _ /\ _ |- _ => destruct H
           | H : comparator_by_ticks _ _ _ = true |- _ => apply comparator_true_iff in H
           | H : comparator_by_ticks _ _ _ = false |- _ => apply comparator_false_iff in H
           end;
    try apply comparator_true_iff; try apply comparator_false_iff; lia.
Qed.

(** ** The wake-up loop on any queue *)

Lemma woken_prefix_due m T q x : In x (woken_prefix m T q) -> time_to_wake (m x) <= T.
Proof.
  induction q as [|e q IH]; simpl; [tauto|].
  destruct (Z.gtb_spec (time_to_wake (m e)) T) as [G|G]; simpl; [tauto|].
  intros [<-|Hx]; [lia|now apply IH].
Qed.

Lemma sleeping_suffix_head m T q :
  match sleeping_suffix m T q with
  | [] => True
  | e :: _ => T < time_to_wake (m e)
  end.
Proof.
  induction q as [|e q IH]; simpl; [exact I|].
  destruct (Z.gtb_spec (time_to_wake (m e)) T) as [G|G]; [exact G|exact IH].
Qed.

(** X2.  Whatever the order of the queue, a drain splits it into a front part
    and the rest: the front part is appended to the ready list in queue
    order and made ready, every thread in it is due, no other thread is
    touched, and the rest starts with a thread that is not due. *)
Theorem drain_ready_never_wakes_early (k : kernel) :
  let k' := drain_ready k in
  exists woken,
    blocked_threads k = woken ++ blocked_threads k' /\
    ready_list k' = ready_list k ++ woken /\
    (forall x, In x woken -> time_to_wake (threads k x) <= timer_ticks k) /\
    (forall x, In x woken -> status (threads k' x) = THREAD_READY) /\
    (forall x, ~ In x woken -> threads k' x = threads k x) /\
    match blocked_threads k' with
    | [] => True
    | e :: _ => timer_ticks k < time_to_wake (threads k e)
    end.
Proof.
  cbv zeta. unfold drain_ready, timer_ticks.
  destruct (wake_loop_spec (blocked_threads k) k) as (Hb & Hr & Ht & _).
  exists (woken_prefix (threads k) (ticks k) (blocked_threads k)).
  rewrite Hb. repeat split.
  - apply prefix_suffix_app.
  - exact Hr.
  - intros x. apply woken_prefix_due.
  - intros x Hx. rewrite Ht. apply existsb_eqb_in in Hx. now rewrite Hx.
  - intros x Hx. rewrite Ht.
    destruct (existsb (Z.eqb x) (woken_prefix (threads k) (ticks k) (blocked_threads k)))
      eqn:E; [|reflexivity].
    apply existsb_eqb_in in E. contradiction.
  - apply sleeping_suffix_head.
Qed.

(** ** Who is in the sleep queue *)

Lemma insert_ordered_nodup less x q :
  NoDup q -> ~ In x q -> NoDup (list_insert_ordered less x q).
Proof.
  induction q as [|e q IH]; intros Hq Hx; simpl.
  - constructor; [tauto|constructor].
  - destruct (less x e); [now constructor|].
    inversion Hq as [|? ? He Hq']; subst. constructor.
    + rewrite insert_ordered_in. intros [->|H]; [apply Hx; now left|contradiction].
    + apply IH; [assumption|]. intros H. apply Hx. now right.
Qed.

Lemma timer_sleep_status cur n k x :
  status (threads (timer_sleep cur n k) x) =
  if x =? cur then THREAD_BLOCKED else status (threads k x).
Proof.
  unfold timer_sleep, thread_block, update_thread; simpl. unfold store.
  now destruct (x =? cur).
Qed.

Lemma nodup_app_disjoint {A} (l1 l2 : list A) x :
  NoDup (l1 ++ l2) -> In x l2 -> ~ In x l1.
Proof.
  induction l1 as [|a l1 IH]; simpl; intros Hn Hx; [tauto|].
  inversion Hn as [|? ? Ha Hn']; subst. intros [->|H].
  - apply Ha. apply in_or_app. now right.
  - now apply (IH Hn' Hx).
Qed.

(** What one interrupt does to the queue and to the status of threads. *)
Lemma timer_interrupt_queue F sz cur k :
  let w := woken_prefix (threads k) (int64 (ticks k + 1)) (blocked_threads k) in
  let k' := timer_interrupt F sz cur k in
  blocked_threads k = w ++ blocked_threads k' /\
  blocked_threads k' = sleeping_suffix (threads k) (int64 (ticks k + 1)) (blocked_threads k) /\
  ready_list k' = ready_list k ++ w /\
  ticks k' = int64 (ticks k + 1) /\
  forall x, time_to_wake (threads k' x) = time_to_wake (threads k x) /\
            nice (threads k' x) = nice (threads k x) /\
            status (threads k' x) =
              if existsb (Z.eqb x) w then THREAD_READY else status (threads k x).
Proof.
  cbv zeta.
  destruct (timer_interrupt_frame F sz cur k) as (Ft & Fb & _ & Fr & _ & _ & _ & Fx).
  rewrite Fb, Fr, Ft. unfold drain_ready.
  destruct (wake_loop_spec (blocked_threads (tick k)) (tick k)) as (Hb & Hr & Ht & Hk & _).
  change (threads (tick k)) with (threads k) in *.
  change (ticks (tick k)) with (int64 (ticks k + 1)) in *.
  change (blocked_threads (tick k)) with (blocked_threads k) in *.
  change (ready_list (tick k)) with (ready_list k) in *.
  unfold drain_ready in Fx.
  rewrite Hb. repeat split; try assumption.
  - apply prefix_suffix_app.
  - destruct (Fx x) as (_ & -> & _). rewrite Ht.
    now destruct (existsb _ _).
  - destruct (Fx x) as (_ & _ & ->). rewrite Ht.
    now destruct (existsb _ _).
  - destruct (Fx x) as (-> & _ & _). rewrite Ht.
    now destruct (existsb _ _).
Qed.

(** X3.  Under any sequence of [timer_sleep] calls and timer interrupts, in
    either scheduling mode, no thread is queued twice and every queued
    thread is blocked: the handler never finds a thread in the queue that
    is not yet, or no longer, blocked. *)
Theorem queued_threads_are_blocked (F sz : Z) (k : kernel) :
  handler_reachable F sz k ->
  NoDup (blocked_threads k) /\
  forall x, In x (blocked_threads k) -> status (threads k x) = THREAD_BLOCKED.
Proof.
  induction 1 as [k|cur n k _ [IH1 IH2] Hn|cur k _ [IH1 IH2]].
  - split; [constructor|intros x []].
  - split.
    + rewrite timer_sleep_blocked. now apply insert_ordered_nodup.
    + intros x Hx. rewrite timer_sleep_blocked in Hx. apply insert_ordered_in in Hx.
      rewrite timer_sleep_status. destruct (Z.eqb_spec x cur); [reflexivity|].
      destruct Hx as [->|Hx]; [contradiction|now apply IH2].
  - destruct (timer_interrupt_queue F sz cur k) as (Ha & _ & _ & _ & Hx).
    rewrite Ha in IH1. split.
    + eapply NoDup_app_remove_l. exact IH1.
    + intros x Hq. destruct (Hx x) as (_ & _ & ->).
      pose proof (nodup_app_disjoint _ _ x IH1 Hq) as Hw.
      destruct (existsb (Z.eqb x) _) eqn:E.
      * apply existsb_eqb_in in E. contradiction.
      * apply IH2. rewrite Ha. apply in_or_app. now right.
Qed.

(** ** Where an insertion lands *)

(** X4.  In a sorted queue [timer_sleep] puts the caller behind every entry
    that wakes earlier, or at the same tick with a priority that is not
    lower, and in front of all the others: among threads with the same wake
    tick and priority the queue is first come, first served. *)
Theorem timer_sleep_queues_behind_equals (cur : tid) (n : Z) (k : kernel) :
  sorted_queue (threads k) (blocked_threads k) ->
  ~ In cur (blocked_threads k) ->
  let k' := timer_sleep cur n k in
  exists front back,
    blocked_threads k = front ++ back /\
    blocked_threads k' = front ++ cur :: back /\
    (forall e, In e front -> queue_le (threads k') e cur) /\
    (forall e, In e back -> comparator_by_ticks (threads k') cur e = true).
Proof.
  intros Hs Hn. cbv zeta. rewrite sorted_strongly in Hs.
  rewrite timer_sleep_blocked.
  set (m1 := store cur _ (threads k)).
  assert (Hs1 : StronglySorted (queue_le m1) (blocked_threads k)).
  { apply strongly_sorted_keys with (m := threads k); [|assumption].
    intros x Hx. unfold m1. rewrite store_other; [auto|]. intros ->. contradiction. }
  assert (Hc : forall a b, comparator_by_ticks (threads (timer_sleep cur n k)) a b =
                           comparator_by_ticks m1 a b).
  { intros a b. unfold comparator_by_ticks.
    unfold timer_sleep, thread_block, update_thread; simpl. fold m1.
    unfold store. destruct (a =? cur), (b =? cur); reflexivity. }
  assert (Hl : forall a b, queue_le m1 a b -> queue_le (threads (timer_sleep cur n k)) a b).
  { intros a b. unfold queue_le.
    unfold timer_sleep, thread_block, update_thread; simpl. fold m1.
    unfold store. destruct (a =? cur), (b =? cur); simpl; auto. }
  clear Hs Hn. induction (blocked_threads k) as [|e q IH]; simpl.
  - exists [], []. repeat split; intros e [].
  - inversion Hs1 as [|? ? Hq He]; subst.
    destruct (comparator_by_ticks m1 cur e) eqn:C.
    + exists [], (e :: q). repeat split; [intros x []|].
      intros x [<-|Hx]; rewrite Hc; [assumption|].
      rewrite Forall_forall in He. specialize (He x Hx).
      apply comparator_true_iff. apply comparator_true_iff in C.
      unfold queue_le in He. lia.
    + destruct (IH Hq) as (front & back & E1 & E2 & P1 & P2).
      exists (e :: front), back. repeat split.
      * simpl. now f_equal.
      * simpl. now f_equal.
      * intros x [<-|Hx]; [|now apply P1].
        apply Hl. now apply comparator_false_le.
      * exact P2.
Qed.

(** ** Runs of sleeps and interrupts *)

Ltac int64_bounds :=
  unfold in_int64, INT64_MIN, INT64_MAX in *;
  change (2 ^ 63) with 9223372036854775808 in *.

Lemma interrupts_nonneg es : 0 <= interrupts es.
Proof. induction es as [|[r|c n] es IH]; cbn [interrupts]; lia. Qed.

Lemma run_events_app F sz es1 es2 k :
  run_events F sz (es1 ++ es2) k = run_events F sz es2 (run_events F sz es1 k).
Proof. unfold run_events. apply fold_left_app. Qed.

Lemma interrupts_app es1 es2 : interrupts (es1 ++ es2) = interrupts es1 + interrupts es2.
Proof. induction es1 as [|[r|c n] es1 IH]; cbn [interrupts app]; lia. Qed.

Lemma callers_run_app F sz es1 es2 k :
  callers_run F sz (es1 ++ es2) k ->
  callers_run F sz es1 k /\ callers_run F sz es2 (run_events F sz es1 k).
Proof.
  revert k. induction es1 as [|e es1 IH]; intros k; simpl; [tauto|].
  intros [H1 H2]. destruct (IH _ H2) as [H3 H4]. tauto.
Qed.

Lemma timer_sleep_ticks cur n k : ticks (timer_sleep cur n k) = ticks k.
Proof. reflexivity. Qed.

(** The tick counter counts the interrupts, whatever else happens in
    between. *)
Lemma run_events_ticks F sz es : forall k,
  in_int64 (ticks k) ->
  ticks k + interrupts es <= INT64_MAX ->
  ticks (run_events F sz es k) = ticks k + interrupts es.
Proof.
  induction es as [|[r|c n] es IH]; intros k Hk Hm;
    cbn [interrupts run_events fold_left run_event] in *.
  - lia.
  - pose proof (interrupts_nonneg es) as Hn.
    destruct (timer_interrupt_queue F sz r k) as (_ & _ & _ & Ht & _).
    assert (E : ticks (timer_interrupt F sz r k) = ticks k + 1).
    { rewrite Ht. apply int64_id. unfold in_int64 in *. lia. }
    fold (run_events F sz es (timer_interrupt F sz r k)).
    rewrite IH; rewrite E; unfold in_int64 in *; lia.
  - fold (run_events F sz es (timer_sleep c n k)).
    rewrite IH; rewrite timer_sleep_ticks; auto.
Qed.

(** X5.  [timer_elapsed] measures the interrupts taken since the tick count was
    read: after a run with N timer interrupts, and any number of
    [timer_sleep] calls in between, it returns N, as long as the counter
    stays within 64 bits. *)
Theorem timer_elapsed_counts_interrupts (F sz : Z) (es : list event) (k : kernel) :
  0 <= ticks k ->
  ticks k + interrupts es <= INT64_MAX ->
  timer_elapsed (run_events F sz es k) (timer_ticks k) = interrupts es.
Proof.
  intros Hk Hm. unfold timer_elapsed, timer_ticks.
  pose proof (interrupts_nonneg es).
  rewrite (run_events_ticks F sz es k); [|int64_bounds; lia|exact Hm].
  replace (ticks k + interrupts es - ticks k) with (interrupts es) by ring.
  apply int64_id. int64_bounds. lia.
Qed.

(** A queued thread whose wake tick lies beyond the interrupts of a run
    sits through the run: still queued, still blocked, its wake tick
    untouched. *)
Lemma run_events_keeps_sleeper F sz x es : forall k,
  callers_run F sz es k ->
  wake_sorted (threads k) (blocked_threads k) ->
  In x (blocked_threads k) ->
  status (threads k x) = THREAD_BLOCKED ->
  in_int64 (ticks k) ->
  ticks k + interrupts es < time_to_wake (threads k x) ->
  time_to_wake (threads k x) <= INT64_MAX ->
  let k' := run_events F sz es k in
  wake_sorted (threads k') (blocked_threads k') /\
  In x (blocked_threads k') /\
  status (threads k' x) = THREAD_BLOCKED /\
  ticks k' = ticks k + interrupts es /\
  time_to_wake (threads k' x) = time_to_wake (threads k x).
Proof.
  induction es as [|[r|c n] es IH]; intros k Hc Hs Hx Hb Hk Hw Hm; cbv zeta;
    cbn [interrupts run_events fold_left run_event callers_run] in *.
  - repeat split; auto. lia.
  - pose proof (interrupts_nonneg es) as Hn.
    fold (run_events F sz es (timer_interrupt F sz r k)).
    destruct (timer_interrupt_queue F sz r k) as (Ha & _ & _ & Ht & Hf).
    assert (E : ticks (timer_interrupt F sz r k) = ticks k + 1).
    { rewrite Ht. apply int64_id. unfold in_int64 in *. lia. }
    assert (Hnw : ~ In x (woken_prefix (threads k) (int64 (ticks k + 1))
                                       (blocked_threads k))).
    { intros H. apply woken_prefix_due in H. rewrite <- Ht, E in H. lia. }
    destruct (Hf x) as (F1 & _ & F3).
    destruct (IH (timer_interrupt F sz r k)) as (I1 & I2 & I3 & I4 & I5).
    + apply Hc.
    + now apply timer_interrupt_wake_sorted.
    + rewrite Ha in Hx. apply in_app_or in Hx. destruct Hx; [contradiction|assumption].
    + rewrite F3. destruct (existsb (Z.eqb x) _) eqn:Ex; [|assumption].
      apply existsb_eqb_in in Ex. contradiction.
    + rewrite E. unfold in_int64 in *. lia.
    + rewrite E, F1. lia.
    + rewrite F1. assumption.
    + repeat split; try assumption.
      * rewrite I4, E. lia.
      * congruence.
  - destruct Hc as [Hc1 Hc2].
    fold (run_events F sz es (timer_sleep c n k)).
    assert (Hxc : x <> c) by (intros ->; contradiction).
    apply Z.eqb_neq in Hxc.
    destruct (timer_sleep_keys c n k x) as [K1 _]. rewrite Hxc in K1.
    destruct (IH (timer_sleep c n k)) as (I1 & I2 & I3 & I4 & I5).
    + exact Hc2.
    + now apply timer_sleep_wake_sorted.
    + rewrite timer_sleep_blocked. apply insert_ordered_in. now right.
    + rewrite timer_sleep_status, Hxc. assumption.
    + assumption.
    + rewrite K1. assumption.
    + rewrite K1. assumption.
    + repeat split; try assumption. congruence.
Qed.

(** X6.  A thread that goes to sleep for [n > 0] ticks sleeps for exactly [n]
    timer interrupts, whatever other threads go to sleep meanwhile: while
    fewer than [n] interrupts have come it stays queued and blocked, and
    the [n]-th one takes it out of the queue and makes it ready. *)
Theorem timer_sleep_wakes_exactly_on_time
        (F sz : Z) (cur : tid) (n : Z) (k : kernel) :
  wake_sorted (threads k) (blocked_threads k) ->
  ~ In cur (blocked_threads k) ->
  0 < n ->
  in_int64 (ticks k) ->
  ticks k + n <= INT64_MAX ->
  let k1 := timer_sleep cur n k in
  (forall es, callers_run F sz es k1 -> interrupts es < n ->
     let k2 := run_events F sz es k1 in
     In cur (blocked_threads k2) /\ status (threads k2 cur) = THREAD_BLOCKED) /\
  (forall es running, callers_run F sz es k1 -> interrupts es = n - 1 ->
     let k2 := run_events F sz (es ++ [Interrupt running]) k1 in
     ~ In cur (blocked_threads k2) /\ In cur (ready_list k2) /\
     status (threads k2 cur) = THREAD_READY).
Proof.
  intros Hs Hn Hpos Hk Hm. cbv zeta.
  assert (Ew : time_to_wake (threads (timer_sleep cur n k) cur) = ticks k + n).
  { destruct (timer_sleep_keys cur n k cur) as [-> _]. rewrite Z.eqb_refl.
    unfold timer_ticks. apply int64_id. unfold in_int64 in *. lia. }
  assert (Ei : In cur (blocked_threads (timer_sleep cur n k))).
  { rewrite timer_sleep_blocked. apply insert_ordered_in. now left. }
  assert (Eb : status (threads (timer_sleep cur n k) cur) = THREAD_BLOCKED).
  { rewrite timer_sleep_status. now rewrite Z.eqb_refl. }
  pose proof (timer_sleep_wake_sorted cur n k Hn Hs) as Hs1.
  assert (Keep : forall es, callers_run F sz es (timer_sleep cur n k) ->
                            interrupts es < n ->
                 let k2 := run_events F sz es (timer_sleep cur n k) in
                 wake_sorted (threads k2) (blocked_threads k2) /\
                 In cur (blocked_threads k2) /\
                 status (threads k2 cur) = THREAD_BLOCKED /\
                 ticks k2 = ticks k + interrupts es /\
                 time_to_wake (threads k2 cur) = ticks k + n).
  { intros es Hc Hi.
    destruct (run_events_keeps_sleeper F sz cur es (timer_sleep cur n k))
      as (I1 & I2 & I3 & I4 & I5); try assumption.
    - rewrite Ew, timer_sleep_ticks. lia.
    - rewrite Ew. assumption.
    - cbv zeta. rewrite timer_sleep_ticks in I4. repeat split; try assumption.
      congruence. }
  split.
  - intros es Hc Hi. destruct (Keep es Hc Hi) as (_ & I2 & I3 & _). auto.
  - intros es running Hc Hi.
    destruct (Keep es Hc) as (I1 & I2 & I3 & I4 & I5); [lia|].
    rewrite run_events_app. set (k2 := run_events F sz es (timer_sleep cur n k)) in *.
    change (run_events F sz [Interrupt running] k2) with (timer_interrupt F sz running k2).
    assert (Et : ticks (tick k2) = ticks k + n).
    { unfold tick; simpl. rewrite I4, Hi.
      replace (ticks k + (n - 1) + 1) with (ticks k + n) by ring.
      apply int64_id. unfold in_int64 in *. lia. }
    destruct (drain_ready_due cur (tick k2)) as (D1 & D2 & D3).
    + exact I1.
    + exact I2.
    + rewrite Et. change (threads (tick k2)) with (threads k2). lia.
    + destruct (timer_interrupt_frame F sz running k2)
        as (_ & Fb & _ & Fr & _ & _ & _ & Fx).
      rewrite Fb, Fr. destruct (Fx cur) as (-> & _). auto.
Qed.

(** ** The handler, case by case *)

Lemma timer_interrupt_off_second F sz cur k :
  thread_mlfqs k = true ->
  Z.rem (int64 (ticks k + 1)) F <> 0 ->
  timer_interrupt F sz cur k = charge_running_thread cur (drain_ready (tick k)).
Proof.
  intros Hm Hsec. unfold timer_interrupt.
  destruct (drain_ready_keeps (tick k)) as (D1 & _ & _ & D4 & _).
  change (thread_mlfqs (tick k)) with (thread_mlfqs k) in D4.
  change (ticks (tick k)) with (int64 (ticks k + 1)) in D1.
  rewrite D4, Hm. unfold mlfqs_step.
  destruct (charge_running_thread_keeps cur (drain_ready (tick k))) as (C1 & _).
  unfold timer_ticks. rewrite C1, D1.
  apply Z.eqb_neq in Hsec. now rewrite Hsec.
Qed.

Lemma recompute_priority_threads a k x :
  load_avg (recompute_priority a k) = load_avg k /\
  idle_thread (recompute_priority a k) = idle_thread k /\
  recent_cpu (threads (recompute_priority a k) x) = recent_cpu (threads k x) /\
  nice (threads (recompute_priority a k) x) = nice (threads k x) /\
  priority (threads (recompute_priority a k) x) =
    if (x =? a) && negb (x =? idle_thread k)
    then mlfqs_priority (recent_cpu (threads k x)) (nice (threads k x))
    else priority (threads k x).
Proof.
  unfold recompute_priority.
  destruct (Z.eqb_spec x a) as [->|Hx]; simpl.
  - destruct (a =? idle_thread k); simpl; [auto|].
    rewrite store_same. simpl. auto.
  - destruct (a =? idle_thread k); simpl; [auto|].
    rewrite store_other by assumption. auto.
Qed.

(** The second loop stores, for every listed thread but the idle one, the
    priority computed from its [recent_cpu] and [nice]. *)
Lemma recompute_loop_spec l : forall k,
  let k' := for_each l recompute_priority k in
  load_avg k' = load_avg k /\ idle_thread k' = idle_thread k /\
  forall x,
    recent_cpu (threads k' x) = recent_cpu (threads k x) /\
    nice (threads k' x) = nice (threads k x) /\
    priority (threads k' x) =
      if existsb (Z.eqb x) l && negb (x =? idle_thread k)
      then mlfqs_priority (recent_cpu (threads k x)) (nice (threads k x))
      else priority (threads k x).
Proof.
  induction l as [|a l IH]; intros k; cbv zeta.
  - simpl. auto.
  - change (for_each (a :: l) recompute_priority k)
      with (for_each l recompute_priority (recompute_priority a k)).
    destruct (IH (recompute_priority a k)) as (E1 & E2 & E3).
    destruct (recompute_priority_threads a k a) as (D1 & D2 & _).
    rewrite E1, E2, D1, D2. repeat split.
    + destruct (E3 x) as (-> & _). apply recompute_priority_threads.
    + destruct (E3 x) as (_ & -> & _). apply recompute_priority_threads.
    + destruct (E3 x) as (_ & _ & ->). rewrite D2.
      destruct (recompute_priority_threads a k x) as (_ & _ & R & N & P).
      rewrite R, N, P. simpl.
      destruct (Z.eqb_spec x a) as [->|Hx]; simpl; [|reflexivity].
      destruct (existsb (Z.eqb a) l); simpl; [|reflexivity].
      now destruct (negb (a =? idle_thread k)).
Qed.

(** The state a whole-second interrupt leaves in MLFQS mode. *)
Lemma timer_interrupt_whole_second F sz cur k :
  thread_mlfqs k = true ->
  Z.rem (int64 (ticks k + 1)) F = 0 ->
  NoDup (all_list k) ->
  let k' := timer_interrupt F sz cur k in
  let listed x := existsb (Z.eqb x) (all_list k) && negb (x =? idle_thread k) in
  load_avg k' = load_avg (update_load_avg sz cur (drain_ready (tick k))) /\
  forall x,
    nice (threads k' x) = nice (threads k x) /\
    recent_cpu (threads k' x) =
      (if listed x
       then spec_recent_cpu (load_avg k')
              (recent_cpu (threads (charge_running_thread cur k) x))
              (nice (threads k x))
       else recent_cpu (threads (charge_running_thread cur k) x)) /\
    priority (threads k' x) =
      (if (Z.rem (int64 (ticks k + 1)) 4 =? 0) && listed x
       then mlfqs_priority (recent_cpu (threads k' x)) (nice (threads k x))
       else priority (threads k x)).
Proof.
  intros Hm Hsec Hnd. cbv zeta.
  destruct (drain_ready_keeps (tick k)) as (D1 & D2 & D3 & D4 & D5 & D6).
  pose proof (drain_ready_keys (tick k)) as Dk.
  set (k0 := drain_ready (tick k)) in *.
  change (ticks (tick k)) with (int64 (ticks k + 1)) in D1.
  change (all_list (tick k)) with (all_list k) in D2.
  change (idle_thread (tick k)) with (idle_thread k) in D3.
  change (thread_mlfqs (tick k)) with (thread_mlfqs k) in D4.
  change (load_avg (tick k)) with (load_avg k) in D5.
  change (threads (tick k)) with (threads k) in D6, Dk.
  unfold timer_interrupt. fold k0. rewrite D4, Hm.
  destruct (charge_running_thread_keeps cur k0) as (C1 & C2 & C3 & C4 & C5 & C6).
  unfold mlfqs_step. set (k1 := charge_running_thread cur k0) in *.
  unfold timer_ticks. rewrite C1, D1, Hsec. simpl (0 =? 0). cbv iota.
  set (k2 := update_load_avg sz cur k1).
  assert (L2 : load_avg k2 = load_avg (update_load_avg sz cur k0)).
  { unfold k2, update_load_avg, ready_threads; simpl. now rewrite C3, C4, C5. }
  assert (A2 : all_list k2 = all_list k) by (unfold k2; simpl; congruence).
  assert (I2 : idle_thread k2 = idle_thread k) by (unfold k2; simpl; congruence).
  assert (T2 : ticks k2 = int64 (ticks k + 1)) by (unfold k2; simpl; congruence).
  assert (P1 : forall x, priority (threads k1 x) = priority (threads k x)).
  { intros x. destruct (Dk x) as [_ <-]. unfold k1, charge_running_thread.
    destruct (cur =? idle_thread k0); [reflexivity|].
    simpl. unfold store. now destruct (x =? cur). }
  assert (R1 : forall x, recent_cpu (threads k1 x) =
                         recent_cpu (threads (charge_running_thread cur k) x)).
  { intros x. unfold k1. rewrite !charge_running_thread_recent_cpu.
    destruct (D6 x) as [-> _]. now rewrite D3. }
  rewrite A2.
  destruct (decay_loop_spec (all_list k) Hnd k2) as (E1 & E2 & E3).
  pose proof (for_each_frame decay_recent_cpu (all_list k) decay_recent_cpu_frame k2)
    as (T3 & _ & _ & _ & A3 & _).
  assert (P3 : forall x, priority (threads (for_each (all_list k) decay_recent_cpu k2) x)
                         = priority (threads k x)).
  { intros x. rewrite <- P1. change (threads k1) with (threads k2).
    apply (for_each_inv
             (fun k' => priority (threads k' x) = priority (threads k2 x)));
      [|reflexivity].
    intros a k' Hk'. rewrite <- Hk'. unfold decay_recent_cpu.
    destruct (a =? idle_thread k'); [reflexivity|].
    simpl. unfold store. now destruct (x =? a). }
  set (k3 := for_each (all_list k) decay_recent_cpu k2) in *.
  rewrite T3, T2, A3, A2.
  assert (R3 : forall x,
             nice (threads k3 x) = nice (threads k x) /\
             recent_cpu (threads k3 x) =
             if existsb (Z.eqb x) (all_list k) && negb (x =? idle_thread k)
             then spec_recent_cpu (load_avg k3)
                    (recent_cpu (threads (charge_running_thread cur k) x))
                    (nice (threads k x))
             else recent_cpu (threads (charge_running_thread cur k) x)).
  { intros x. destruct (E3 x) as [N R]. rewrite N, R, I2, E1.
    change (threads k2) with (threads k1). rewrite C6, R1.
    destruct (D6 x) as [_ ->]. auto. }
  destruct (Z.rem (int64 (ticks k + 1)) 4 =? 0); cbn [andb].
  - destruct (recompute_loop_spec (all_list k) k3) as (Q1 & Q2 & Q3).
    rewrite Q1. split; [congruence|]. intros x.
    destruct (Q3 x) as (Qr & Qn & Qp). destruct (R3 x) as [N R].
    rewrite Qr, Qn, Qp, E2, I2, N, P3. auto.
  - split; [congruence|]. intros x. destruct (R3 x) as [N R]. auto.
Qed.

(** ** What the handler leaves alone *)

(** X7.  A timer interrupt never changes a wake tick or a nice value, nor the
    list of all threads, the idle thread, the scheduling mode or the
    calibration; and with the MLFQS mode off it changes no priority, no
    [recent_cpu] and not the load average either. *)
Theorem timer_interrupt_leaves_alone (F sz : Z) (cur : tid) (k : kernel) :
  let k' := timer_interrupt F sz cur k in
  all_list k' = all_list k /\ idle_thread k' = idle_thread k /\
  thread_mlfqs k' = thread_mlfqs k /\ loops_per_tick k' = loops_per_tick k /\
  (forall x, time_to_wake (threads k' x) = time_to_wake (threads k x) /\
             nice (threads k' x) = nice (threads k x)) /\
  (thread_mlfqs k = false ->
   load_avg k' = load_avg k /\
   forall x, priority (threads k' x) = priority (threads k x) /\
             recent_cpu (threads k' x) = recent_cpu (threads k x)).
Proof.
  cbv zeta.
  destruct (timer_interrupt_frame F sz cur k) as (_ & _ & Fl & _ & Fa & Fi & Fm & Fx).
  destruct (drain_ready_keeps (tick k)) as (_ & D2 & D3 & D4 & D5 & D6).
  destruct (wake_loop_spec (blocked_threads (tick k)) (tick k))
    as (_ & _ & _ & _ & Hl & _).
  fold (drain_ready (tick k)) in Hl.
  change (all_list (tick k)) with (all_list k) in D2.
  change (idle_thread (tick k)) with (idle_thread k) in D3.
  change (thread_mlfqs (tick k)) with (thread_mlfqs k) in D4.
  change (load_avg (tick k)) with (load_avg k) in D5.
  change (loops_per_tick (tick k)) with (loops_per_tick k) in Hl.
  change (threads (tick k)) with (threads k) in D6.
  split; [congruence|]. split; [congruence|]. split; [congruence|].
  split; [congruence|]. split.
  - intros x. split.
    + destruct (Fx x) as (_ & -> & _). apply (drain_ready_keys (tick k) x).
    + destruct (Fx x) as (_ & _ & ->). apply D6.
  - intros Hoff. rewrite (timer_interrupt_mlfqs_off F sz cur k Hoff).
    split; [exact D5|]. intros x. split.
    + apply (drain_ready_keys (tick k) x).
    + apply D6.
Qed.

(** X8.  In MLFQS mode, at a tick that is not a whole second, the handler adds
    one tick of processor time, fixed-point 1, to the [recent_cpu] of the
    running thread unless that is the idle thread, and changes no other
    [recent_cpu], no priority and not the load average. *)
Theorem per_tick_charge (F sz : Z) (cur : tid) (k : kernel) :
  thread_mlfqs k = true ->
  Z.rem (int64 (ticks k + 1)) F <> 0 ->
  let k' := timer_interrupt F sz cur k in
  load_avg k' = load_avg k /\
  forall x,
    priority (threads k' x) = priority (threads k x) /\
    recent_cpu (threads k' x) =
      if (x =? cur) && negb (cur =? idle_thread k)
      then add_fixed_int (recent_cpu (threads k x)) 1
      else recent_cpu (threads k x).
Proof.
  intros Hm Hsec. cbv zeta.
  destruct (drain_ready_keeps (tick k)) as (_ & _ & D3 & _ & D5 & D6).
  destruct (charge_running_thread_keeps cur (drain_ready (tick k)))
    as (_ & _ & _ & _ & C5 & _).
  split.
  - rewrite (timer_interrupt_off_second F sz cur k Hm Hsec). rewrite C5. exact D5.
  - intros x. split.
    + now apply timer_interrupt_priority_off_second.
    + rewrite (timer_interrupt_off_second F sz cur k Hm Hsec).
      rewrite charge_running_thread_recent_cpu.
      destruct (D6 x) as [-> _]. now rewrite D3.
Qed.

Lemma mlfqs_step_idle F sz cur k :
  recent_cpu (threads (mlfqs_step F sz cur k) (idle_thread k)) =
    recent_cpu (threads k (idle_thread k)) /\
  priority (threads (mlfqs_step F sz cur k) (idle_thread k)) =
    priority (threads k (idle_thread k)).
Proof.
  set (i := idle_thread k).
  set (P := fun k' => idle_thread k' = i /\
                      recent_cpu (threads k' i) = recent_cpu (threads k i) /\
                      priority (threads k' i) = priority (threads k i)).
  assert (Pu : forall a f k', P k' -> a <> idle_thread k' -> P (update_thread a f k')).
  { intros a f k' (P1 & P2 & P3) Ha. unfold P, update_thread; simpl.
    rewrite store_other by congruence. auto. }
  assert (P0 : P k) by (unfold P; auto).
  assert (P1 : P (charge_running_thread cur k)).
  { unfold charge_running_thread. destruct (Z.eqb_spec cur (idle_thread k)); auto. }
  unfold mlfqs_step.
  destruct (Z.rem (timer_ticks (charge_running_thread cur k)) F =? 0);
    [|destruct P1 as (_ & ? & ?); auto].
  set (k2 := update_load_avg sz cur (charge_running_thread cur k)).
  assert (P2 : P k2) by exact P1.
  assert (P3 : P (for_each (all_list k2) decay_recent_cpu k2)).
  { apply for_each_inv; [|exact P2]. intros a k' Hk'. unfold decay_recent_cpu.
    destruct (Z.eqb_spec a (idle_thread k')); auto. }
  set (k3 := for_each (all_list k2) decay_recent_cpu k2) in *.
  assert (P4 : P (for_each (all_list k3) recompute_priority k3)).
  { apply for_each_inv; [|exact P3]. intros a k' Hk'. unfold recompute_priority.
    destruct (Z.eqb_spec a (idle_thread k')); auto. }
  destruct (Z.rem (timer_ticks k3) 4 =? 0).
  - destruct P4 as (_ & ? & ?); auto.
  - destruct P3 as (_ & ? & ?); auto.
Qed.

(** X9.  The idle thread is never charged, decayed or given a new priority: no
    timer interrupt, in any mode and at any tick, changes its [recent_cpu]
    or its priority, even while it is the running thread. *)
Theorem idle_thread_is_left_out (F sz : Z) (cur : tid) (k : kernel) :
  let k' := timer_interrupt F sz cur k in
  recent_cpu (threads k' (idle_thread k)) = recent_cpu (threads k (idle_thread k)) /\
  priority (threads k' (idle_thread k)) = priority (threads k (idle_thread k)).
Proof.
  cbv zeta. unfold timer_interrupt.
  destruct (drain_ready_keeps (tick k)) as (_ & _ & D3 & _ & _ & D6).
  destruct (drain_ready_keys (tick k) (idle_thread k)) as [_ Dp].
  destruct (D6 (idle_thread k)) as [Dr _].
  change (idle_thread (tick k)) with (idle_thread k) in D3.
  change (threads (tick k)) with (threads k) in Dr, Dp.
  destruct (thread_mlfqs (drain_ready (tick k))); [|auto].
  destruct (mlfqs_step_idle F sz cur (drain_ready (tick k))) as [M1 M2].
  rewrite D3 in M1, M2. split; congruence.
Qed.

(** ** The numbers the MLFQS block stores *)

Lemma fixed_to_nearest_int_mono x y :
  x <= y -> fixed_to_nearest_int x <= fixed_to_nearest_int y.
Proof.
  intros H. unfold fixed_to_nearest_int. change F with 16384.
  change (Z.quot 16384 2) with 8192.
  destruct (Z.leb_spec 0 x), (Z.leb_spec 0 y); try lia.
  - apply Z.quot_le_mono; lia.
  - destruct (quot_nonpos_bounds (x - 8192) 16384); try lia.
    assert (0 <= Z.quot (y + 8192) 16384) by (apply Z.quot_pos; lia). lia.
  - apply Z.quot_le_mono; lia.
Qed.

Lemma mlfqs_priority_clamped rc nc :
  mlfqs_priority rc nc =
  Z.max 0 (Z.min 63 (fixed_to_nearest_int (64 - Z.quot rc 4 - nc * 2 * F))).
Proof.
  unfold mlfqs_priority, sub_fixed_int, sub_two_fixed, div_fixed_int. cbv zeta.
  set (p := fixed_to_nearest_int (64 - Z.quot rc 4 - nc * 2 * F)).
  destruct (Z.gtb_spec p 63); [lia|]. destruct (Z.ltb_spec p 0); lia.
Qed.

(** X10.  The priority the handler stores always lies in the priority range 0 to
    63, and it never goes up when [recent_cpu] or [nice] goes up. *)
Theorem mlfqs_priority_range_and_monotone (rc rc' : real) (nc nc' : Z) :
  0 <= mlfqs_priority rc nc <= 63 /\
  (rc <= rc' -> mlfqs_priority rc' nc <= mlfqs_priority rc nc) /\
  (nc <= nc' -> mlfqs_priority rc nc' <= mlfqs_priority rc nc).
Proof.
  rewrite !mlfqs_priority_clamped. split; [lia|]. split; intros H.
  - assert (Q : Z.quot rc 4 <= Z.quot rc' 4) by (apply Z.quot_le_mono; lia).
    pose proof (fixed_to_nearest_int_mono
                  (64 - Z.quot rc' 4 - nc * 2 * F) (64 - Z.quot rc 4 - nc * 2 * F)).
    lia.
  - assert (0 < F) by (unfold F; lia).
    pose proof (fixed_to_nearest_int_mono
                  (64 - Z.quot rc 4 - nc' * 2 * F) (64 - Z.quot rc 4 - nc * 2 * F)).
    assert (nc * 2 * F <= nc' * 2 * F) by nia.
    lia.
Qed.

(** X11.  At a whole second that is also a multiple of 4, the priority stored
    for a listed thread other than the idle one is computed from the
    [recent_cpu] that this same interrupt has just stored for it, and lies
    in the priority range; the priority of any other thread is left as it
    was. *)
Theorem whole_second_priority_from_fresh_recent_cpu
        (F sz : Z) (cur : tid) (k : kernel) (x : tid) :
  thread_mlfqs k = true ->
  Z.rem (int64 (ticks k + 1)) F = 0 ->
  Z.rem (int64 (ticks k + 1)) 4 = 0 ->
  NoDup (all_list k) ->
  let k' := timer_interrupt F sz cur k in
  (In x (all_list k) -> x <> idle_thread k ->
   priority (threads k' x) =
     mlfqs_priority (recent_cpu (threads k' x)) (nice (threads k' x)) /\
   0 <= priority (threads k' x) <= 63) /\
  (~ In x (all_list k) \/ x = idle_thread k ->
   priority (threads k' x) = priority (threads k x)).
Proof.
  intros Hm Hsec H4 Hnd. cbv zeta.
  destruct (timer_interrupt_whole_second F sz cur k Hm Hsec Hnd) as (_ & Hx).
  destruct (Hx x) as (N & _ & P). rewrite H4 in P. simpl (0 =? 0) in P.
  cbn [andb] in P. split.
  - intros Hin Hidle.
    assert (Ex : existsb (Z.eqb x) (all_list k) = true) by now apply existsb_eqb_in.
    apply Z.eqb_neq in Hidle. rewrite Ex, Hidle in P. cbn [andb negb] in P.
    rewrite N, P. split; [reflexivity|].
    rewrite mlfqs_priority_clamped. lia.
  - intros [Hin | ->].
    + destruct (existsb (Z.eqb x) (all_list k)) eqn:Ex.
      * apply existsb_eqb_in in Ex. contradiction.
      * exact P.
    + rewrite Z.eqb_refl, andb_false_r in P. exact P.
Qed.

Lemma update_load_avg_value sz cur k :
  load_avg (update_load_avg sz cur k) =
  Z.quot (16110 * load_avg k) 16384 + 273 * ready_threads sz cur k.
Proof. reflexivity. Qed.

Lemma ready_threads_bit sz cur k : ready_threads sz cur k = 0 \/ ready_threads sz cur k = 1.
Proof. unfold ready_threads. destruct (_ =? _); auto. Qed.

Lemma update_load_avg_bounds sz cur k :
  0 <= load_avg k <= int_to_fixed 1 ->
  0 <= load_avg (update_load_avg sz cur k) < int_to_fixed 1.
Proof.
  rewrite update_load_avg_value. unfold int_to_fixed. change (1 * F) with 16384.
  intros H. destruct (quot_nonneg_bounds (16110 * load_avg k) 16384) as [E B]; try lia.
  assert (16110 * load_avg k / 16384 <= 16110).
  { apply Z.div_le_upper_bound; lia. }
  destruct (ready_threads_bit sz cur k) as [-> | ->]; lia.
Qed.

Lemma timer_interrupt_load_avg F sz cur k :
  thread_mlfqs k = true ->
  Z.rem (int64 (ticks k + 1)) F = 0 ->
  load_avg (timer_interrupt F sz cur k) =
  load_avg (update_load_avg sz cur (drain_ready (tick k))).
Proof.
  intros Hm Hsec. unfold timer_interrupt.
  destruct (drain_ready_keeps (tick k)) as (D1 & _ & _ & D4 & _).
  change (thread_mlfqs (tick k)) with (thread_mlfqs k) in D4.
  change (ticks (tick k)) with (int64 (ticks k + 1)) in D1.
  set (k0 := drain_ready (tick k)) in *. rewrite D4, Hm.
  destruct (charge_running_thread_keeps cur k0) as (C1 & _ & C3 & C4 & C5 & _).
  unfold mlfqs_step. set (k1 := charge_running_thread cur k0) in *.
  unfold timer_ticks. rewrite C1, D1, Hsec. simpl (0 =? 0). cbv iota.
  set (k2 := update_load_avg sz cur k1).
  assert (L2 : load_avg k2 = load_avg (update_load_avg sz cur k0)).
  { unfold k2, update_load_avg, ready_threads; simpl. now rewrite C3, C4, C5. }
  assert (L3 : load_avg (for_each (all_list k2) decay_recent_cpu k2) = load_avg k2).
  { apply (for_each_inv (fun k' => load_avg k' = load_avg k2)); [|reflexivity].
    intros a k' Hk'. destruct (decay_recent_cpu_threads a k' a) as [-> _]. exact Hk'. }
  set (k3 := for_each (all_list k2) decay_recent_cpu k2) in *.
  destruct (Z.rem (ticks k3) 4 =? 0); [|congruence].
  rewrite <- L2, <- L3.
  apply (for_each_inv (fun k' => load_avg k' = load_avg k3)); [|reflexivity].
  intros a k' Hk'. destruct (recompute_priority_keeps a k' a) as [-> _]. exact Hk'.
Qed.

(** X12.  A load average between 0 and 1 stays between 0 and 1 under every timer
    interrupt, however many threads are ready: the update adds at most
    one sixtieth, for at most one runnable thread, to 59 sixtieths of the
    old value. *)
Theorem load_avg_stays_within_one (F sz : Z) (cur : tid) (k : kernel) :
  0 <= load_avg k <= int_to_fixed 1 ->
  0 <= load_avg (timer_interrupt F sz cur k) <= int_to_fixed 1.
Proof.
  intros H.
  destruct (drain_ready_keeps (tick k)) as (_ & _ & _ & _ & D5 & _).
  change (load_avg (tick k)) with (load_avg k) in D5.
  destruct (thread_mlfqs k) eqn:Hm.
  - destruct (Z.eq_dec (Z.rem (int64 (ticks k + 1)) F) 0) as [Hsec|Hsec].
    + rewrite (timer_interrupt_load_avg F sz cur k Hm Hsec).
      pose proof (update_load_avg_bounds sz cur (drain_ready (tick k))) as B.
      rewrite D5 in B. specialize (B H). lia.
    + rewrite (timer_interrupt_off_second F sz cur k Hm Hsec).
      destruct (charge_running_thread_keeps cur (drain_ready (tick k)))
        as (_ & _ & _ & _ & -> & _).
      rewrite D5. exact H.
  - rewrite (timer_interrupt_mlfqs_off F sz cur k Hm). rewrite D5. exact H.
Qed.

Lemma spec_recent_cpu_bounds la rc nc :
  0 <= la -> 0 <= rc ->
  int_to_fixed nc <= spec_recent_cpu la rc nc <= rc + int_to_fixed nc.
Proof.
  intros Hla Hrc.
  rewrite <- spec_recent_cpu_code.
  unfold add_fixed_int, mul_two_fixed, div_two_fixed, mul_fixed_int, int_to_fixed.
  change F with 16384.
  set (c := Z.quot (la * 2 * 16384) (la * 2 + 1 * 16384)).
  assert (Hc : 0 <= c < 16384).
  { unfold c. destruct (quot_nonneg_bounds (la * 2 * 16384) (la * 2 + 1 * 16384))
      as [E B]; try lia.
    rewrite E. split; [apply Z.div_pos; lia|].
    apply Z.div_lt_upper_bound; lia. }
  destruct (quot_nonneg_bounds (c * rc) 16384) as [E B]; try nia.
  assert (c * rc / 16384 <= rc) by (apply Z.div_le_upper_bound; nia).
  lia.
Qed.

(** X13.  At a whole second in MLFQS mode, with a load average and a
    [recent_cpu] that are not negative, the decay takes nothing but a part
    of [recent_cpu] away before [nice] is added: the new [recent_cpu] of a
    listed thread other than the idle one lies between [nice] and the old
    [recent_cpu] (the per-tick charge included) plus [nice]. *)
Theorem recent_cpu_decays_toward_nice (F sz : Z) (cur : tid) (k : kernel) (x : tid) :
  thread_mlfqs k = true ->
  Z.rem (int64 (ticks k + 1)) F = 0 ->
  NoDup (all_list k) ->
  In x (all_list k) ->
  x <> idle_thread k ->
  0 <= load_avg k <= int_to_fixed 1 ->
  0 <= recent_cpu (threads k x) ->
  let k' := timer_interrupt F sz cur k in
  let charged := recent_cpu (threads (charge_running_thread cur k) x) in
  recent_cpu (threads k x) <= charged <= add_fixed_int (recent_cpu (threads k x)) 1 /\
  int_to_fixed (nice (threads k x)) <= recent_cpu (threads k' x)
    <= charged + int_to_fixed (nice (threads k x)).
Proof.
  intros Hm Hsec Hnd Hin Hidle Hla Hrc. cbv zeta.
  destruct (timer_interrupt_whole_second F sz cur k Hm Hsec Hnd) as (L & Hx).
  destruct (Hx x) as (_ & R & _).
  assert (Ex : existsb (Z.eqb x) (all_list k) = true) by now apply existsb_eqb_in.
  apply Z.eqb_neq in Hidle. rewrite Ex, Hidle in R. cbn [andb negb] in R.
  assert (Hc : recent_cpu (threads k x)
               <= recent_cpu (threads (charge_running_thread cur k) x)
               <= add_fixed_int (recent_cpu (threads k x)) 1).
  { rewrite charge_running_thread_recent_cpu. unfold add_fixed_int.
    change (1 * FixedPoint.F) with 16384.
    destruct ((x =? cur) && negb (cur =? idle_thread k)); lia. }
  split; [exact Hc|].
  rewrite R. apply spec_recent_cpu_bounds; [|lia].
  rewrite L.
  destruct (drain_ready_keeps (tick k)) as (_ & _ & _ & _ & D5 & _).
  change (load_avg (tick k)) with (load_avg k) in D5.
  pose proof (update_load_avg_bounds sz cur (drain_ready (tick k))) as B.
  rewrite D5 in B. specialize (B Hla). lia.
Qed.

(** ** Calibration against a steady clock *)

Lemma lor_fresh_bit lpt j :
  0 <= j -> lpt mod 2 ^ (j + 1) = 0 -> Z.lor lpt (2 ^ j) = lpt + 2 ^ j.
Proof.
  intros Hj Hm.
  assert (L : Z.land lpt (2 ^ j) = 0).
  { apply Z.bits_inj'. intros i Hi. rewrite Z.land_spec, Z.bits_0.
    rewrite Z.pow2_bits_eqb by lia.
    destruct (Z.eqb_spec j i) as [<-|Hne]; [|apply andb_false_r].
    rewrite andb_true_r.
    apply Z.mod_divide in Hm; [|apply Z.pow_nonzero; lia].
    destruct Hm as [c ->]. apply Z.mul_pow2_bits_low. lia. }
  rewrite <- Z.lxor_lor by exact L. symmetry. now apply Z.add_nocarry_lxor.
Qed.

Lemma doubling_loop_steady limit fuel : forall calls e,
  10 <= e <= Z.log2 limit ->
  Z.log2 limit <= 30 ->
  (Z.to_nat (Z.log2 limit - e) < fuel)%nat ->
  exists calls',
    doubling_loop (steady_clock limit) fuel calls (2 ^ e) = Ret (2 ^ Z.log2 limit, calls').
Proof.
  induction fuel as [|fuel IH]; intros calls e He Hl Hf; [lia|].
  assert (Hpos : 0 < limit).
  { destruct (Z.le_gt_cases limit 0) as [L|L]; [|assumption].
    apply Z.log2_nonpos in L. lia. }
  destruct (Z.log2_spec limit Hpos) as [L1 L2].
  cbn [doubling_loop]. rewrite shiftl_pow2_1 by lia.
  assert (B : 0 < 2 ^ (e + 1) < 2 ^ 32).
  { split; [apply Z.pow_pos_nonneg; lia|apply Z.pow_lt_mono_r; lia]. }
  unfold uint32. rewrite Z.mod_small by lia. unfold steady_clock.
  destruct (Z.eq_dec e (Z.log2 limit)) as [->|Hne].
  - replace (Z.log2 limit + 1) with (Z.succ (Z.log2 limit)) by lia.
    assert (T : (limit <? 2 ^ Z.succ (Z.log2 limit)) = true) by (apply Z.ltb_lt; lia).
    rewrite T. eauto.
  - assert (2 ^ (e + 1) <= 2 ^ Z.log2 limit) by (apply Z.pow_le_mono_r; lia).
    assert (T : (limit <? 2 ^ (e + 1)) = false) by (apply Z.ltb_ge; lia).
    rewrite T.
    assert (N : (2 ^ (e + 1) =? 0) = false) by (apply Z.eqb_neq; lia).
    rewrite N. apply IH; lia.
Qed.

Lemma refine_loop_steady limit fuel : forall calls e j lpt,
  10 <= e ->
  e - 10 <= j <= e - 1 ->
  0 <= lpt ->
  lpt mod 2 ^ (j + 1) = 0 ->
  lpt <= limit < lpt + 2 ^ (j + 1) ->
  (Z.to_nat (j - (e - 10)) < fuel)%nat ->
  exists lpt',
    refine_loop (steady_clock limit) fuel calls (2 ^ e) (2 ^ j) lpt = Ret lpt' /\
    lpt' mod 2 ^ (e - 9) = 0 /\
    lpt' <= limit < lpt' + 2 ^ (e - 9).
Proof.
  induction fuel as [|fuel IH]; intros calls e j lpt He Hj Hp Hm Hb Hf; [lia|].
  cbn [refine_loop]. rewrite (shiftr_pow2 e 10) by lia.
  destruct (Z.eq_dec j (e - 10)) as [->|Hne].
  - rewrite Z.eqb_refl. exists lpt.
    replace (e - 10 + 1) with (e - 9) in * by ring. auto.
  - assert (N : (2 ^ j =? 2 ^ (e - 10)) = false).
    { apply Z.eqb_neq. intros E. apply Z.pow_inj_r in E; lia. }
    rewrite N. rewrite (shiftr_pow2 j 1) by lia.
    rewrite lor_fresh_bit by (assumption || lia).
    assert (P2 : 2 ^ (j + 1) = 2 * 2 ^ j).
    { rewrite Z.pow_add_r by lia. change (2 ^ 1) with 2. ring. }
    assert (Pj : 0 < 2 ^ j) by (apply Z.pow_pos_nonneg; lia).
    assert (Mj : lpt mod 2 ^ j = 0).
    { apply Z.mod_divide; [lia|]. apply Z.mod_divide in Hm; [|lia].
      destruct Hm as [c ->]. exists (c * 2). rewrite P2. ring. }
    assert (IH' : forall lpt0,
               0 <= lpt0 -> lpt0 mod 2 ^ j = 0 -> lpt0 <= limit < lpt0 + 2 ^ j ->
               exists lpt',
                 refine_loop (steady_clock limit) fuel (S calls) (2 ^ e) (2 ^ (j - 1)) lpt0
                 = Ret lpt' /\
                 lpt' mod 2 ^ (e - 9) = 0 /\
                 lpt' <= limit < lpt' + 2 ^ (e - 9)).
    { intros lpt0 H0 H1 H2. apply IH; try lia;
        replace (j - 1 + 1) with j by ring; assumption. }
    assert (Sc : steady_clock limit calls (lpt + 2 ^ j) = (limit <? lpt + 2 ^ j))
      by reflexivity.
    rewrite Sc.
    destruct (Z.ltb_spec limit (lpt + 2 ^ j)).
    + apply IH'; [exact Hp|exact Mj|lia].
    + apply IH'; [lia| |lia].
      rewrite <- Zplus_mod_idemp_l, Mj. simpl. apply Z_mod_same_full.
Qed.

(** X14.  Against a steady clock on which [limit] iterations fit in a tick, with
    [limit] from 2^10 up to but not including 2^31, [timer_calibrate]
    finds [limit] to the precision of its ten leading bits: the result is
    [limit] with all bits below those ten cleared.  The loop tests nine
    bits under the leading one. *)
Theorem timer_calibrate_finds_limit (limit : Z) :
  2 ^ 10 <= limit < 2 ^ 31 ->
  let step := 2 ^ (Z.log2 limit - 9) in
  timer_calibrate (steady_clock limit) INTR_ON = Ret (limit / step * step).
Proof.
  intros [Hlo Hhi]. cbv zeta.
  assert (Hpos : 0 < limit).
  { assert (0 < 2 ^ 10) by (apply Z.pow_pos_nonneg; lia). lia. }
  assert (HE : 10 <= Z.log2 limit <= 30).
  { split.
    - rewrite <- (Z.log2_pow2 10) by lia. now apply Z.log2_le_mono.
    - assert (Z.log2 limit < 31) by (apply Z.log2_lt_pow2; assumption). lia. }
  destruct (Z.log2_spec limit Hpos) as [L1 L2].
  set (E := Z.log2 limit) in *.
  unfold timer_calibrate, timer_calibrate_fuel.
  change (uint32 (Z.shiftl 1 10)) with (2 ^ 10).
  destruct (doubling_loop_steady limit 64 0 10) as [calls ->]; try (fold E; lia).
  fold E. rewrite (shiftr_pow2 E 1) by lia.
  assert (PE : 0 < 2 ^ E) by (apply Z.pow_pos_nonneg; lia).
  destruct (refine_loop_steady limit 64 calls E (E - 1) (2 ^ E))
    as (lpt & -> & M & B); try lia.
  - replace (E - 1 + 1) with E by ring. apply Z_mod_same_full.
  - replace (E - 1 + 1) with E by ring.
    replace (2 ^ Z.succ E) with (2 * 2 ^ E) in L2; [lia|].
    rewrite Z.pow_succ_r by lia. reflexivity.
  - f_equal.
    assert (Pg : 0 < 2 ^ (E - 9)) by (apply Z.pow_pos_nonneg; lia).
    apply Z.mod_divide in M; [|lia]. destruct M as [c ->].
    f_equal. apply Z.div_unique with (r := limit - c * 2 ^ (E - 9)); lia.
Qed.

Lemma doubling_loop_overflows limit fuel : forall calls e,
  2 ^ 31 <= limit ->
  10 <= e <= 31 ->
  (Z.to_nat (31 - e) < fuel)%nat ->
  doubling_loop (steady_clock limit) fuel calls (2 ^ e) = Failed Assert_loops_nonzero.
Proof.
  induction fuel as [|fuel IH]; intros calls e Hl He Hf; [lia|].
  cbn [doubling_loop]. rewrite shiftl_pow2_1 by lia. unfold uint32.
  destruct (Z.eq_dec e 31) as [->|Hne].
  - change (2 ^ (31 + 1) mod 2 ^ 32) with 0. unfold steady_clock.
    assert (T : (limit <? 0) = false).
    { apply Z.ltb_ge. assert (0 < 2 ^ 31) by (apply Z.pow_pos_nonneg; lia). lia. }
    rewrite T. reflexivity.
  - assert (B : 0 < 2 ^ (e + 1) < 2 ^ 32).
    { split; [apply Z.pow_pos_nonneg; lia|apply Z.pow_lt_mono_r; lia]. }
    rewrite Z.mod_small by lia. unfold steady_clock.
    assert (2 ^ (e + 1) <= 2 ^ 31) by (apply Z.pow_le_mono_r; lia).
    assert (T : (limit <? 2 ^ (e + 1)) = false) by (apply Z.ltb_ge; lia).
    rewrite T.
    assert (N : (2 ^ (e + 1) =? 0) = false) by (apply Z.eqb_neq; lia).
    rewrite N. apply IH; [assumption|lia|lia].
Qed.

(** X15.  On a machine so fast that 2^31 or more iterations fit in a tick the
    doubling search runs over the 32 bits of the counter: its last test is
    made with 0 iterations, which never take too long, and the calibration
    stops in the assertion that [loops_per_tick] is not zero. *)
Theorem timer_calibrate_overflows_on_fast_clock (limit : Z) :
  2 ^ 31 <= limit ->
  timer_calibrate (steady_clock limit) INTR_ON = Failed Assert_loops_nonzero.
Proof.
  intros Hl. unfold timer_calibrate, timer_calibrate_fuel.
  change (uint32 (Z.shiftl 1 10)) with (2 ^ 10).
  rewrite doubling_loop_overflows; [reflexivity|assumption|lia|lia].
Qed.

Lemma refine_loop_too_slow limit fuel : forall calls j,
  limit < 2 ^ 10 ->
  0 <= j <= 9 ->
  (Z.to_nat j < fuel)%nat ->
  refine_loop (steady_clock limit) fuel calls (2 ^ 10) (2 ^ j) (2 ^ 10) = Ret (2 ^ 10).
Proof.
  induction fuel as [|fuel IH]; intros calls j Hl Hj Hf; [lia|].
  cbn [refine_loop]. change (Z.shiftr (2 ^ 10) 10) with (2 ^ 0).
  destruct (Z.eq_dec j 0) as [->|Hne]; [reflexivity|].
  assert (N : (2 ^ j =? 2 ^ 0) = false).
  { apply Z.eqb_neq. intros E. apply Z.pow_inj_r in E; lia. }
  rewrite N. rewrite (shiftr_pow2 j 1) by lia.
  rewrite lor_fresh_bit; [|lia|].
  - assert (Pj : 0 < 2 ^ j) by (apply Z.pow_pos_nonneg; lia).
    assert (T : steady_clock limit calls (2 ^ 10 + 2 ^ j) = true).
    { unfold steady_clock. apply Z.ltb_lt. lia. }
    rewrite T. apply IH; [assumption|lia|lia].
  - apply Z.mod_divide; [apply Z.pow_nonzero; lia|].
    exists (2 ^ (10 - (j + 1))). rewrite <- Z.pow_add_r by lia. f_equal. lia.
Qed.

(** X16.  On a machine so slow that fewer than 2^10 iterations fit in a tick the
    calibration still reports 2^10, the value the search starts from: no
    test can bring it down. *)
Theorem timer_calibrate_floor (limit : Z) :
  limit < 2 ^ 10 ->
  timer_calibrate (steady_clock limit) INTR_ON = Ret (2 ^ 10).
Proof.
  intros Hl. unfold timer_calibrate, timer_calibrate_fuel.
  change (uint32 (Z.shiftl 1 10)) with (2 ^ 10).
  change 64%nat with (S 63). cbn [doubling_loop].
  change (uint32 (Z.shiftl (2 ^ 10) 1)) with (2 ^ 11).
  assert (T : steady_clock limit 0 (2 ^ 11) = true).
  { unfold steady_clock. apply Z.ltb_lt.
    assert (2 ^ 10 < 2 ^ 11) by (apply Z.pow_lt_mono_r; lia). lia. }
  rewrite T. change (Z.shiftr (2 ^ 10) 1) with (2 ^ 9).
  apply refine_loop_too_slow; [assumption|lia|lia].
Qed.

(** ** The busy-wait loop *)

Lemma busy_wait_loop_count fuel : forall loops barriers,
  in_int64 loops ->
  (Z.to_nat loops < fuel)%nat ->
  busy_wait_loop fuel loops barriers = Ret (barriers + Z.max 0 loops).
Proof.
  induction fuel as [|fuel IH]; intros loops barriers Hl Hf; [lia|].
  cbn [busy_wait_loop]. destruct (Z.gtb_spec loops 0) as [G|G].
  - assert (E : int64 (loops - 1) = loops - 1).
    { apply int64_id. int64_bounds. lia. }
    rewrite E, IH; [f_equal; lia| |lia].
    int64_bounds. lia.
  - f_equal. lia.
Qed.

(** X17.  [busy_wait] always comes to an end, after exactly [loops] rounds of its
    loop when [loops] is positive and without a single round when it is
    zero or negative. *)
Theorem busy_wait_rounds (fuel : nat) (loops : Z) :
  in_int64 loops ->
  (Z.to_nat loops < fuel)%nat ->
  busy_wait_loop fuel loops 0 = Ret (Z.max 0 loops) /\
  busy_wait loops = Ret (Z.max 0 loops).
Proof.
  intros Hl Hf. unfold busy_wait.
  rewrite !busy_wait_loop_count; [split; reflexivity|assumption|lia|assumption|lia].
Qed.

(** ** The further properties at work on the sample kernels *)

Lemma napping_kernel_reachable :
  handler_reachable 100 sample_sizeof_thread napping_kernel_at_100.
Proof.
  unfold napping_kernel_at_100, napping_kernel.
  do 2 apply hreach_interrupt.
  apply hreach_sleep; [apply hreach_sleep; [apply hreach_init|]|].
  - simpl. tauto.
  - vm_compute. intros [H|[]]. discriminate.
Qed.

Lemma queued_threads_are_blocked_witness :
  handler_reachable 100 sample_sizeof_thread napping_kernel_at_100 /\
  NoDup (blocked_threads napping_kernel_at_100) /\
  status (threads napping_kernel_at_100 sample_b) = THREAD_BLOCKED.
Proof.
  pose proof napping_kernel_reachable as R.
  destruct (queued_threads_are_blocked 100 sample_sizeof_thread napping_kernel_at_100 R)
    as [N B].
  split; [exact R|]. split; [exact N|].
  apply B. vm_compute. tauto.
Defined.

Lemma timer_sleep_queues_behind_equals_witness :
  let k := timer_sleep sample_a 10 (timer_init (sample_kernel 5 [])) in
  sorted_queue (threads k) (blocked_threads k) /\
  ~ In sample_b (blocked_threads k) /\
  exists front back,
    blocked_threads k = front ++ back /\
    blocked_threads (timer_sleep sample_b 10 k) = front ++ sample_b :: back /\
    (forall e, In e front -> queue_le (threads (timer_sleep sample_b 10 k)) e sample_b) /\
    (forall e, In e back ->
               comparator_by_ticks (threads (timer_sleep sample_b 10 k)) sample_b e = true).
Proof.
  cbv zeta.
  set (k := timer_sleep sample_a 10 (timer_init (sample_kernel 5 []))).
  assert (H1 : sorted_queue (threads k) (blocked_threads k)).
  { change (blocked_threads k) with [sample_a]. repeat constructor. }
  assert (H2 : ~ In sample_b (blocked_threads k)).
  { vm_compute. intros [H|[]]. discriminate. }
  split; [exact H1|]. split; [exact H2|].
  exact (timer_sleep_queues_behind_equals sample_b 10 k H1 H2).
Defined.

Lemma timer_elapsed_counts_interrupts_witness :
  let k := sample_kernel 5 [] in
  let es := [Interrupt sample_main; Sleep sample_a 3; Interrupt sample_main] in
  0 <= ticks k /\
  ticks k + interrupts es <= INT64_MAX /\
  timer_elapsed (run_events 100 sample_sizeof_thread es k) (timer_ticks k) = 2.
Proof.
  cbv zeta.
  assert (H1 : 0 <= ticks (sample_kernel 5 [])) by (simpl; lia).
  assert (H2 : ticks (sample_kernel 5 [])
               + interrupts [Interrupt sample_main; Sleep sample_a 3; Interrupt sample_main]
               <= INT64_MAX) by (int64_bounds; simpl; lia).
  split; [exact H1|]. split; [exact H2|].
  exact (timer_elapsed_counts_interrupts 100 sample_sizeof_thread _ _ H1 H2).
Defined.

Lemma timer_sleep_wakes_exactly_on_time_witness :
  let k := timer_init (sample_kernel 5 []) in
  let k1 := timer_sleep sample_a 2 k in
  wake_sorted (threads k) (blocked_threads k) /\
  ~ In sample_a (blocked_threads k) /\
  0 < 2 /\
  in_int64 (ticks k) /\
  ticks k + 2 <= INT64_MAX /\
  (In sample_a (blocked_threads
                  (run_events 100 sample_sizeof_thread [Interrupt sample_main] k1)) /\
   status (threads (run_events 100 sample_sizeof_thread [Interrupt sample_main] k1)
                   sample_a) = THREAD_BLOCKED) /\
  status (threads (run_events 100 sample_sizeof_thread
                              ([Interrupt sample_main] ++ [Interrupt sample_main]) k1)
                  sample_a) = THREAD_READY.
Proof.
  cbv zeta.
  set (k := timer_init (sample_kernel 5 [])).
  assert (H1 : wake_sorted (threads k) (blocked_threads k)) by constructor.
  assert (H2 : ~ In sample_a (blocked_threads k)) by (simpl; tauto).
  assert (H3 : 0 < 2) by lia.
  assert (H4 : in_int64 (ticks k)) by (int64_bounds; simpl; change F with 16384; lia).
  assert (H5 : ticks k + 2 <= INT64_MAX) by (int64_bounds; simpl; lia).
  repeat (split; [assumption|]).
  destruct (timer_sleep_wakes_exactly_on_time
              100 sample_sizeof_thread sample_a 2 k H1 H2 H3 H4 H5) as [Early Late].
  split.
  - apply Early; [simpl; tauto|vm_compute; reflexivity].
  - apply (Late [Interrupt sample_main] sample_main); [simpl; tauto|reflexivity].
Defined.

Lemma per_tick_charge_witness :
  let k := busy_kernel 3 in
  let k' := timer_interrupt 100 sample_sizeof_thread sample_main k in
  thread_mlfqs k = true /\
  Z.rem (int64 (ticks k + 1)) 100 <> 0 /\
  load_avg k' = load_avg k /\
  recent_cpu (threads k' sample_main) = int_to_fixed 1 /\
  recent_cpu (threads k' sample_a) = 0.
Proof.
  cbv zeta.
  assert (H1 : thread_mlfqs (busy_kernel 3) = true) by reflexivity.
  assert (H2 : Z.rem (int64 (ticks (busy_kernel 3) + 1)) 100 <> 0)
    by (vm_compute; discriminate).
  split; [exact H1|]. split; [exact H2|].
  destruct (per_tick_charge 100 sample_sizeof_thread sample_main (busy_kernel 3) H1 H2)
    as [L C].
  split; [exact L|]. split.
  - destruct (C sample_main) as [_ ->]. reflexivity.
  - destruct (C sample_a) as [_ ->]. reflexivity.
Defined.

Lemma whole_second_priority_from_fresh_recent_cpu_witness :
  let k := busy_kernel 99 in
  let k' := timer_interrupt 100 sample_sizeof_thread sample_main k in
  thread_mlfqs k = true /\
  Z.rem (int64 (ticks k + 1)) 100 = 0 /\
  Z.rem (int64 (ticks k + 1)) 4 = 0 /\
  NoDup (all_list k) /\
  priority (threads k' sample_b) =
    mlfqs_priority (recent_cpu (threads k' sample_b)) (nice (threads k' sample_b)) /\
  priority (threads k' sample_idle) = priority (threads k sample_idle).
Proof.
  cbv zeta.
  assert (H1 : thread_mlfqs (busy_kernel 99) = true) by reflexivity.
  assert (H2 : Z.rem (int64 (ticks (busy_kernel 99) + 1)) 100 = 0) by reflexivity.
  assert (H3 : Z.rem (int64 (ticks (busy_kernel 99) + 1)) 4 = 0) by reflexivity.
  assert (H4 : NoDup (all_list (busy_kernel 99))) by (simpl; distinct_threads).
  repeat (split; [assumption|]).
  split.
  - destruct (whole_second_priority_from_fresh_recent_cpu
                100 sample_sizeof_thread sample_main (busy_kernel 99) sample_b
                H1 H2 H3 H4) as [P _].
    apply P; [simpl; tauto|simpl; discriminate].
  - destruct (whole_second_priority_from_fresh_recent_cpu
                100 sample_sizeof_thread sample_main (busy_kernel 99) sample_idle
                H1 H2 H3 H4) as [_ P].
    apply P. right. reflexivity.
Defined.

Lemma load_avg_stays_within_one_witness :
  let k := busy_kernel 99 in
  0 <= load_avg k <= int_to_fixed 1 /\
  0 <= load_avg (timer_interrupt 100 sample_sizeof_thread sample_main k) <= int_to_fixed 1.
Proof.
  cbv zeta.
  assert (H : 0 <= load_avg (busy_kernel 99) <= int_to_fixed 1)
    by (int64_bounds; simpl; change F with 16384; lia).
  split; [exact H|].
  exact (load_avg_stays_within_one 100 sample_sizeof_thread sample_main (busy_kernel 99) H).
Defined.

Lemma recent_cpu_decays_toward_nice_witness :
  let k := busy_kernel 99 in
  let k' := timer_interrupt 100 sample_sizeof_thread sample_main k in
  thread_mlfqs k = true /\
  Z.rem (int64 (ticks k + 1)) 100 = 0 /\
  NoDup (all_list k) /\
  In sample_main (all_list k) /\
  sample_main <> idle_thread k /\
  0 <= load_avg k <= int_to_fixed 1 /\
  0 <= recent_cpu (threads k sample_main) /\
  int_to_fixed (nice (threads k sample_main)) <= recent_cpu (threads k' sample_main)
    <= recent_cpu (threads (charge_running_thread sample_main k) sample_main)
       + int_to_fixed (nice (threads k sample_main)).
Proof.
  cbv zeta.
  assert (H1 : thread_mlfqs (busy_kernel 99) = true) by reflexivity.
  assert (H2 : Z.rem (int64 (ticks (busy_kernel 99) + 1)) 100 = 0) by reflexivity.
  assert (H3 : NoDup (all_list (busy_kernel 99))) by (simpl; distinct_threads).
  assert (H4 : In sample_main (all_list (busy_kernel 99))) by (simpl; tauto).
  assert (H5 : sample_main <> idle_thread (busy_kernel 99)) by (simpl; discriminate).
  assert (H6 : 0 <= load_avg (busy_kernel 99) <= int_to_fixed 1)
    by (int64_bounds; simpl; change F with 16384; lia).
  assert (H7 : 0 <= recent_cpu (threads (busy_kernel 99) sample_main))
    by (vm_compute; discriminate).
  repeat (split; [assumption|]).
  destruct (recent_cpu_decays_toward_nice
              100 sample_sizeof_thread sample_main (busy_kernel 99) sample_main
              H1 H2 H3 H4 H5 H6 H7) as [_ B].
  exact B.
Defined.

Lemma timer_calibrate_finds_limit_witness :
  2 ^ 10 <= 5003 < 2 ^ 31 /\
  timer_calibrate (steady_clock 5003) INTR_ON = Ret 5000.
Proof.
  assert (H : 2 ^ 10 <= 5003 < 2 ^ 31) by (int64_bounds; simpl; change F with 16384; lia).
  split; [exact H|].
  rewrite (timer_calibrate_finds_limit 5003 H). reflexivity.
Defined.

Lemma timer_calibrate_overflows_on_fast_clock_witness :
  2 ^ 31 <= 2 ^ 31 /\
  timer_calibrate (steady_clock (2 ^ 31)) INTR_ON = Failed Assert_loops_nonzero.
Proof.
  assert (H : 2 ^ 31 <= 2 ^ 31) by lia.
  split; [exact H|].
  exact (timer_calibrate_overflows_on_fast_clock (2 ^ 31) H).
Defined.

Lemma timer_calibrate_floor_witness :
  100 < 2 ^ 10 /\ timer_calibrate (steady_clock 100) INTR_ON = Ret (2 ^ 10).
Proof.
  assert (H : 100 < 2 ^ 10) by reflexivity.
  split; [exact H|].
  exact (timer_calibrate_floor 100 H).
Defined.

Lemma busy_wait_rounds_witness :
  in_int64 3 /\ (Z.to_nat 3 < 5)%nat /\
  busy_wait_loop 5 3 0 = Ret 3 /\ busy_wait (-7) = Ret 0.
Proof.
  assert (H1 : in_int64 3) by (int64_bounds; simpl; change F with 16384; lia).
  assert (H2 : (Z.to_nat 3 < 5)%nat) by (vm_compute; lia).
  split; [exact H1|]. split; [exact H2|].
  split.
  - destruct (busy_wait_rounds 5 3 H1 H2) as [L _]. exact L.
  - reflexivity.
Defined.

(** ** The drain of the queue as the handler keeps it (claim C4) *)

Lemma run_interrupts_reachable F sz r n : forall k,
  handler_reachable F sz k ->
  handler_reachable F sz (run_events F sz (repeat (Interrupt r) n) k).
Proof.
  induction n as [|n IH]; intros k Hk; [exact Hk|].
  cbn [repeat run_events fold_left run_event].
  apply (IH (timer_interrupt F sz r k)). now apply hreach_interrupt.
Qed.

(** C4, as stated, fails in MLFQS mode.  In [napping_kernel_at_147], reached
    from [timer_init] by two [timer_sleep] calls and 49 timer interrupts,
    [sample_a] stands in the queue in front of [sample_b], both due at
    tick 148, with the priorities 0 and 11 that the interrupt of tick 100
    gave them.  The queue is not sorted, a drain that removes nothing (at
    tick 147) leaves it unsorted, and the drain of tick 148 unblocks
    [sample_a], of the lower priority, first. *)
Lemma drain_wakes_lower_priority_first :
  let k := napping_kernel_at_147 in
  let k' := drain_ready (tick k) in
  handler_reachable 100 sample_sizeof_thread k /\
  blocked_threads k = [sample_a; sample_b] /\
  blocked_threads (drain_ready k) = [sample_a; sample_b] /\
  ~ sorted_queue (threads (drain_ready k)) (blocked_threads (drain_ready k)) /\
  timer_ticks k' = 148 /\
  time_to_wake (threads k sample_a) = 148 /\
  time_to_wake (threads k sample_b) = 148 /\
  priority (threads k sample_a) = 0 /\
  priority (threads k sample_b) = 11 /\
  ready_list k = [] /\
  ready_list k' = [sample_a; sample_b] /\
  ready_list (timer_interrupt 100 sample_sizeof_thread sample_main k)
    = [sample_a; sample_b] /\
  ~ sorted_queue (threads k') [sample_a; sample_b].
Proof.
  cbv zeta.
  assert (U : forall m, time_to_wake (m sample_a) = time_to_wake (m sample_b) ->
                        priority (m sample_a) < priority (m sample_b) ->
                        ~ sorted_queue m [sample_a; sample_b]).
  { intros m Hw Hp Hs. inversion Hs as [|? ? _ Hd]; subst.
    inversion Hd as [|? ? Hle]; subst. unfold queue_le in Hle. lia. }
  split.
  { unfold napping_kernel_at_147. apply run_interrupts_reachable.
    unfold napping_kernel_at_100, napping_kernel.
    do 2 apply hreach_interrupt.
    apply hreach_sleep; [apply hreach_sleep; [apply hreach_init|]|].
    - simpl. tauto.
    - vm_compute. intros [H|[]]. discriminate. }
  split; [vm_compute; reflexivity|].
  split; [vm_compute; reflexivity|].
  split.
  { change (blocked_threads (drain_ready napping_kernel_at_147))
      with [sample_a; sample_b].
    apply U; vm_compute; reflexivity. }
  repeat (split; [vm_compute; reflexivity|]).
  apply U; vm_compute; reflexivity.
Qed.

(** C4, amended.  On a sleep queue in wake-tick order, which is how the
    handler keeps it, draining at tick [T] unblocks exactly the queued
    entries whose wake tick is at most [T], front to back in queue order:
    they are appended to the ready list in that order, each one is made
    ready and no other thread is touched.  It stops at the first entry
    whose wake tick exceeds [T], removes no entry whose wake tick is in the
    future, and leaves the rest in wake-tick order.  When the queue is
    moreover fully sorted at the drain, entries with equal wake ticks are
    unblocked in descending priority order and the rest stays fully
    sorted. *)
Theorem drain_ready_unblocks_due_in_queue_order (k : kernel) :
  wake_sorted (threads k) (blocked_threads k) ->
  let T := timer_ticks k in
  let q := blocked_threads k in
  let woken := filter (due (threads k) T) q in
  let k' := drain_ready k in
  ready_list k' = ready_list k ++ woken /\
  blocked_threads k' = filter (fun x => negb (due (threads k) T x)) q /\
  q = woken ++ blocked_threads k' /\
  (forall x, In x woken -> status (threads k' x) = THREAD_READY) /\
  (forall x, ~ In x woken -> threads k' x = threads k x) /\
  (forall x, In x (blocked_threads k') -> T < time_to_wake (threads k' x)) /\
  match blocked_threads k' with
  | [] => True
  | e :: _ => T < time_to_wake (threads k' e)
  end /\
  wake_sorted (threads k') woken /\
  wake_sorted (threads k') (blocked_threads k') /\
  (sorted_queue (threads k) q ->
   sorted_queue (threads k') woken /\ sorted_queue (threads k') (blocked_threads k')).
Proof.
  intros Hs. cbv zeta.
  pose proof (drain_ready_wake_sorted k Hs) as Hs'.
  pose proof (drain_ready_keys k) as Hk.
  rewrite wake_sorted_strongly in Hs.
  destruct (sorted_prefix_filter (threads k) (ticks k) (blocked_threads k) Hs)
    as [Ew Es].
  pose proof (prefix_suffix_app (threads k) (ticks k) (blocked_threads k)) as Ha.
  pose proof (sleeping_suffix_head (threads k) (ticks k) (blocked_threads k)) as Hh.
  unfold drain_ready, timer_ticks in *.
  destruct (wake_loop_spec (blocked_threads k) k) as (Hb & Hr & Ht & _).
  rewrite Ew in Hr, Ht, Ha. rewrite Es in Hb, Ha, Hh.
  assert (Hfut : forall x,
             In x (blocked_threads (wake_loop (blocked_threads k) k)) ->
             ticks k < time_to_wake (threads (wake_loop (blocked_threads k) k) x)).
  { intros x Hx. rewrite Hb in Hx. apply filter_In in Hx. destruct Hx as [_ Hx].
    destruct (Hk x) as [-> _]. unfold due in Hx.
    apply negb_true_iff, Z.leb_gt in Hx. exact Hx. }
  split; [exact Hr|]. split; [exact Hb|]. split; [rewrite Hb; exact Ha|].
  split.
  { intros x Hx. rewrite Ht. apply existsb_eqb_in in Hx. now rewrite Hx. }
  split.
  { intros x Hx. rewrite Ht.
    destruct (existsb (Z.eqb x) (filter (due (threads k) (ticks k)) (blocked_threads k)))
      eqn:E; [|reflexivity].
    apply existsb_eqb_in in E. contradiction. }
  split; [exact Hfut|]. split.
  { destruct (blocked_threads (wake_loop (blocked_threads k) k)) as [|e rest] eqn:Eq;
      [exact I|].
    apply Hfut. now left. }
  split.
  { apply wake_sorted_strongly. apply strongly_wake_sorted_keys with (m := threads k).
    - intros x _. apply Hk.
    - now apply strongly_wake_sorted_filter. }
  split; [exact Hs'|].
  intros Hq. split.
  - apply sorted_strongly. apply strongly_sorted_keys with (m := threads k).
    + intros x _. apply Hk.
    + apply strongly_sorted_filter. now apply sorted_strongly.
  - apply (drain_ready_sorted k Hq).
Qed.

Lemma drain_ready_unblocks_due_in_queue_order_witness :
  let k := tick napping_kernel_at_147 in
  wake_sorted (threads k) (blocked_threads k) /\
  ready_list (drain_ready k) = [sample_a; sample_b] /\
  blocked_threads (drain_ready k) = [].
Proof.
  cbv zeta.
  assert (S : wake_sorted (threads (tick napping_kernel_at_147))
                          (blocked_threads (tick napping_kernel_at_147))).
  { change (blocked_threads (tick napping_kernel_at_147)) with [sample_a; sample_b].
    repeat constructor. vm_compute. discriminate. }
  split; [exact S|].
  destruct (drain_ready_unblocks_due_in_queue_order (tick napping_kernel_at_147) S)
    as (Hr & Hb & _).
  rewrite Hr, Hb. split; vm_compute; reflexivity.
Defined.
